(** * Scripted world generator of VoxelEngine-Cpp

    A shallow embedding of [src/logic/scripting/scripting_world_generation.cpp]:
    the layer / biome loader ([load_layer], [load_layers], [load_biome],
    [scripting::load_generator]) and the scripted generator
    ([LuaGeneratorScript::generateHeightmap], [LuaGeneratorScript::prepare]),
    followed by the properties of the generator specification that the code
    decides.

    Conventions.
    - C++ [int] and [uint] are 32 bits wide and are carried as [Z] with the
      wrap-around written out ([wrap_int], [wrap_uint]).
    - A thrown [std::runtime_error] is the [Throw] case of [result]; its
      [what()] text is the carried string.
    - In-place mutation ([prepare]) is explicit state passing: a step returns
      its outcome together with the state it leaves behind, also when it
      throws.
    - The Lua interpreter is not part of the translation unit.  Tables are
      represented by what the engine's field accessors read from them, the
      interpreter state reached by a scripted call is an explicit parameter
      of the generator, and the pushes and pops that only keep the Lua stack
      balanced are not represented. *)

From Stdlib Require Import ZArith String List Lia DecimalString Floats.
From stdpp Require Import base option list strings gmap.

Local Open Scope string_scope.
Local Open Scope Z_scope.
Local Open Scope list_scope.

(** * The program

    ** Machine integers *)

Module Int.

Definition modulus32 : Z := 2 ^ 32.
Definition modulus64 : Z := 2 ^ 64.

(** Conversion to [uint] / arithmetic on [uint]. *)
Definition wrap_uint (z : Z) : Z := z mod modulus32.

(** Conversion to [int] (two's complement). *)
Definition wrap_int (z : Z) : Z := (z + 2 ^ 31) mod modulus32 - 2 ^ 31.

(** Conversion of a [uint64_t] to [lua_Integer] (a signed 64-bit integer). *)
Definition wrap_int64 (z : Z) : Z := (z + 2 ^ 63) mod modulus64 - 2 ^ 63.

End Int.

(** [std::to_string] on an integer. *)
Definition to_string (z : Z) : string := NilZero.string_of_int (Z.to_int z).

(** ** Exceptions *)

(** The outcome of a computation that may throw [std::runtime_error]. *)
Inductive result (A : Type) : Type :=
| Ok (a : A)
| Throw (what : string).
Arguments Ok {A} a.
Arguments Throw {A} what.

#[global] Instance result_ret : MRet result := fun A a => Ok a.

#[global] Instance result_bind : MBind result := fun A B k r =>
  match r with
  | Ok a => k a
  | Throw what => Throw what
  end.

(** [try { r } catch (const std::runtime_error& err) { throw
    std::runtime_error(h (err.what())); }] *)
Definition rethrow {A : Type} (h : string -> string) (r : result A) : result A :=
  match r with
  | Ok a => Ok a
  | Throw what => Throw (h what)
  end.

Definition is_ok {A : Type} (r : result A) : bool :=
  match r with Ok _ => true | Throw _ => false end.

(** ** Data model ([world/generator/GeneratorDef.hpp]) *)

(** A C++ [float].  Values reach the model only by narrowing a Lua number (a
    double) and are never computed with, so the narrowing conversion is kept
    symbolic: [Float32 d] is the [float] nearest to the double [d]. *)
Inductive float32 : Type :=
| Float32 (d : float).

Definition float32_zero : float32 := Float32 0%float.

Definition blockid_t : Type := Z.

Record BiomeParameter : Type := {
  value : float32;
  weight : float32
}.

Record BlocksLayer : Type := {
  block : string;
  height : Z;
  belowSeaLevel : bool;
  rt_id : blockid_t
}.

Record BlocksLayers : Type := {
  layers : list BlocksLayer;
  lastLayersHeight : Z
}.

Record Biome : Type := {
  name : string;
  parameters : list BiomeParameter;
  groundLayers : BlocksLayers;
  seaLayers : BlocksLayers
}.

(** Value-initialised members: [BiomeParameter{}] and the [rt] member that
    [load_layer] initialises with [{}]. *)
Definition BiomeParameter_default : BiomeParameter :=
  {| value := float32_zero; weight := float32_zero |}.

Definition rt_default : blockid_t := 0.

(** ** Lua tables, as the field accessors see them *)

(** A layer entry [{block=..., height=..., below_sea_level=...}].  A field is
    [None] when the accessor finds no usable value for it. *)
Record raw_layer : Type := {
  rl_block : option string;
  rl_height : option Z;
  rl_below_sea_level : option bool
}.

Record raw_parameter : Type := {
  rp_value : option float;
  rp_weight : option float
}.

(** A biome entry; [None] is an absent field, [Some l] a table whose array
    part is [l]. *)
Record raw_biome : Type := {
  rb_parameters : option (list raw_parameter);
  rb_layers : option (list raw_layer);
  rb_sea_layers : option (list raw_layer)
}.

(** The global [biomes] field: absent, present but not a table, or a table
    listed in the order [lua::next] traverses it, each key already converted
    by [lua::tostring]. *)
Inductive raw_biomes : Type :=
| BiomesAbsent
| BiomesNotTable
| BiomesTable (entries : list (string * raw_biome)).

(** The environment left by running the generator script. *)
Record raw_generator : Type := {
  rg_biome_parameters : option Z;
  rg_sea_level : option Z;
  rg_biomes : raw_biomes
}.

(** ** Field accessors ([lua/lua_util.hpp], not part of the translation unit) *)

Module lua.

(** Modelled from the spec: the text carried by the error that the
    [require*] accessors raise for a missing field is not given by the spec
    ("missing required fields"); it is fixed here once and no statement below
    depends on the wording. *)
Definition no_member (fieldname : string) : string :=
  "object has no member '" +:+ fieldname +:+ "'".

(** Modelled from the spec: [lua::requirefield] and the [require_*_field]
    accessors ("each raw entry requires a block-name field and an integer
    height field", "missing required fields" is a [ConfigError]): they yield
    the field or throw [std::runtime_error]. *)
Definition requirefield {A : Type} (field : option A) (fieldname : string)
  : result A :=
  match field with
  | Some v => Ok v
  | None => Throw (no_member fieldname)
  end.

Definition require_string_field := @requirefield string.
Definition require_integer_field := @requirefield Z.
Definition require_number_field := @requirefield float.

(** Modelled from the spec: [lua::get_boolean_field(L, name, def)] ("an
    optional boolean ... (default: true)"). *)
Definition get_boolean_field (field : option bool) (def : bool) : bool :=
  match field with
  | Some b => b
  | None => def
  end.

(** Modelled from the spec: [lua::get_integer_field(L, name, def, min, max)]
    ("default 0, clamped 0..16"). *)
Definition get_integer_field (field : option Z) (def min max : Z) : Z :=
  match field with
  | Some v => Z.max min (Z.min max v)
  | None => def
  end.

End lua.

(** ** The loader *)

Definition only_one_resizeable : string := "only one resizeable layer allowed".

(** [load_layer]: the two reference parameters [lastLayersHeight] and
    [hasResizeableLayer] are passed in and returned. *)
Definition load_layer (entry : raw_layer)
    (lastLayersHeight : Z) (hasResizeableLayer : bool)
  : result (BlocksLayer * (Z * bool)) :=
  name ← lua.require_string_field (rl_block entry) "block";
  h ← lua.require_integer_field (rl_height entry) "height";
  let height := Int.wrap_int h in
  let belowSeaLevel := lua.get_boolean_field (rl_below_sea_level entry) true in
  let lastLayersHeight :=
    if hasResizeableLayer
    then Int.wrap_uint (lastLayersHeight + height)
    else lastLayersHeight in
  if (height =? -1)%Z then
    if hasResizeableLayer then Throw only_one_resizeable
    else Ok ({| block := name; height := height;
                belowSeaLevel := belowSeaLevel; rt_id := rt_default |},
             (lastLayersHeight, true))
  else Ok ({| block := name; height := height;
              belowSeaLevel := belowSeaLevel; rt_id := rt_default |},
           (lastLayersHeight, hasResizeableLayer)).

(** The text built by the [catch] of [load_layers]. *)
Definition layers_error (fieldname : string) (i : Z) (what : string) : string :=
  fieldname +:+ " #" +:+ to_string i +:+ ": " +:+ what.

(** The loop [for (int i = 1; i <= len; i++)] of [load_layers], entered at
    index [i] with the entries still to be read. *)
Fixpoint load_layers_loop (fieldname : string) (i : Z) (entries : list raw_layer)
    (lastLayersHeight : Z) (hasResizeableLayer : bool)
    (acc : list BlocksLayer) : result BlocksLayers :=
  match entries with
  | [] => Ok {| layers := acc; lastLayersHeight := lastLayersHeight |}
  | entry :: rest =>
      '(layer, (last, has)) ←
        rethrow (layers_error fieldname i)
                (load_layer entry lastLayersHeight hasResizeableLayer);
      load_layers_loop fieldname (i + 1) rest last has (acc ++ [layer])
  end.

Definition load_layers (field : option (list raw_layer)) (fieldname : string)
  : result BlocksLayers :=
  match field with
  | Some entries => load_layers_loop fieldname 1 entries 0 false []
  | None => Ok {| layers := []; lastLayersHeight := 0 |}
  end.

(** The loop [for (uint i = 1; i <= parametersCount; i++)] of [load_biome],
    over the entries that [lua::rawgeti] visits. *)
Fixpoint load_parameters_loop (entries : list raw_parameter)
    (acc : list BiomeParameter) : result (list BiomeParameter) :=
  match entries with
  | [] => Ok acc
  | entry :: rest =>
      v ← lua.require_number_field (rp_value entry) "value";
      w ← lua.require_number_field (rp_weight entry) "weight";
      load_parameters_loop rest
        (acc ++ [{| value := Float32 v; weight := Float32 w |}])
  end.

(** The text built by the [catch] of [load_biome] and, once more, by the
    [catch] of [load_generator]. *)
Definition biome_error (name what : string) : string :=
  "biome " +:+ name +:+ ": " +:+ what.

(** [load_biome]; the vector [parameters] is constructed with
    [parametersCount] value-initialised elements and the loop appends to it. *)
Definition load_biome (entry : raw_biome) (name : string) (parametersCount : Z)
  : result Biome :=
  let parameters :=
    replicate (Z.to_nat parametersCount) BiomeParameter_default in
  table ← lua.requirefield (rb_parameters entry) "parameters";
  if (Z.of_nat (length table) <? parametersCount)%Z then
    Throw (to_string parametersCount +:+ " parameters expected")
  else
    parameters ←
      load_parameters_loop (take (Z.to_nat parametersCount) table) parameters;
    '(groundLayers, seaLayers) ←
      rethrow (biome_error name)
        (groundLayers ← load_layers (rb_layers entry) "layers";
         seaLayers ← load_layers (rb_sea_layers entry) "sea_layers";
         mret (groundLayers, seaLayers));
    mret {| name := name; parameters := parameters;
            groundLayers := groundLayers; seaLayers := seaLayers |}.

(** ** The scripted generator *)

(** A script environment handle ([scriptenv], a shared pointer to the
    environment's number). *)
Definition scriptenv : Type := Z.

Record LuaGeneratorScript : Type := {
  env : scriptenv;
  biomes : list Biome;
  biomeParameters : Z;
  seaLevel : Z
}.

(** The loop [while (lua::next(L, -2))] of [load_generator]. *)
Fixpoint load_biomes_loop (entries : list (string * raw_biome))
    (biomeParameters : Z) (acc : list Biome) : result (list Biome) :=
  match entries with
  | [] => Ok acc
  | (biomeName, entry) :: rest =>
      biome ← rethrow (biome_error biomeName)
                 (load_biome entry biomeName biomeParameters);
      load_biomes_loop rest biomeParameters (acc ++ [biome])
  end.

Section LoadGenerator.

(** The height of a chunk column ([CHUNK_H], [voxels/Chunk.hpp]). *)
Variable CHUNK_H : Z.

(** [scripting::load_generator], from the environment [new_env] that
    [create_environment] returned and the globals [script] that running the
    file left in it. *)
Definition load_generator (new_env : scriptenv) (script : raw_generator)
  : result LuaGeneratorScript :=
  let biomeParameters :=
    Int.wrap_uint
      (lua.get_integer_field (rg_biome_parameters script) 0 0 16) in
  let seaLevel :=
    Int.wrap_uint
      (lua.get_integer_field (rg_sea_level script) 0 0 CHUNK_H) in
  entries ←
    match rg_biomes script with
    | BiomesAbsent => Throw (lua.no_member "biomes")
    | BiomesNotTable => Throw "'biomes' must be a table"
    | BiomesTable entries => Ok entries
    end;
  biomes ← load_biomes_loop entries biomeParameters [];
  mret {| env := new_env; biomes := biomes;
          biomeParameters := biomeParameters; seaLevel := seaLevel |}.

End LoadGenerator.

Definition getBiomes (self : LuaGeneratorScript) : list Biome := biomes self.
Definition getBiomeParameters (self : LuaGeneratorScript) : Z :=
  biomeParameters self.
Definition getSeaLevel (self : LuaGeneratorScript) : Z := seaLevel self.

(** *** Binding block names: [prepare] *)

Record Block : Type := {
  Block_name : string;
  Block_rt_id : blockid_t
}.

Record Content : Type := {
  blocks : gmap string Block
}.

(** Modelled from the spec: [ContentUnitDefs::require] ([content/Content.hpp],
    not part of the translation unit): "a block lookup
    ([require(name) -> {runtime id}])" that "fails fatally ... if a
    referenced block name does not exist". *)
Definition blocks_require (defs : gmap string Block) (id : string)
  : result Block :=
  match defs !! id with
  | Some def => Ok def
  | None => Throw ("missing content unit " +:+ id)
  end.

Definition set_rt_id (layer : BlocksLayer) (id : blockid_t) : BlocksLayer :=
  {| block := block layer; height := height layer;
     belowSeaLevel := belowSeaLevel layer; rt_id := id |}.

(** [for (auto& layer : layers) layer.rt.id = content->blocks.require(
    layer.block).rt.id;] run on a vector in place: the outcome and the vector
    as the loop leaves it. *)
Fixpoint prepare_layers (content : Content) (ls : list BlocksLayer)
  : result unit * list BlocksLayer :=
  match ls with
  | [] => (Ok tt, [])
  | layer :: rest =>
      match blocks_require (blocks content) (block layer) with
      | Throw what => (Throw what, layer :: rest)
      | Ok def =>
          let '(r, rest) := prepare_layers content rest in
          (r, set_rt_id layer (Block_rt_id def) :: rest)
      end
  end.

Definition set_layers (stack : BlocksLayers) (ls : list BlocksLayer)
  : BlocksLayers :=
  {| layers := ls; lastLayersHeight := lastLayersHeight stack |}.

(** The body of the loop over biomes: ground layers, then sea layers. *)
Definition prepare_biome (content : Content) (biome : Biome)
  : result unit * Biome :=
  let '(r, ground) := prepare_layers content (layers (groundLayers biome)) in
  match r with
  | Throw what =>
      (Throw what,
       {| name := name biome; parameters := parameters biome;
          groundLayers := set_layers (groundLayers biome) ground;
          seaLayers := seaLayers biome |})
  | Ok _ =>
      let '(r, sea) := prepare_layers content (layers (seaLayers biome)) in
      (r,
       {| name := name biome; parameters := parameters biome;
          groundLayers := set_layers (groundLayers biome) ground;
          seaLayers := set_layers (seaLayers biome) sea |})
  end.

Fixpoint prepare_biomes (content : Content) (bs : list Biome)
  : result unit * list Biome :=
  match bs with
  | [] => (Ok tt, [])
  | biome :: rest =>
      let '(r, biome) := prepare_biome content biome in
      match r with
      | Throw what => (Throw what, biome :: rest)
      | Ok _ =>
          let '(r, rest) := prepare_biomes content rest in
          (r, biome :: rest)
      end
  end.

(** [LuaGeneratorScript::prepare]. *)
Definition prepare (self : LuaGeneratorScript) (content : Content)
  : result unit * LuaGeneratorScript :=
  let '(r, bs) := prepare_biomes content (biomes self) in
  (r, {| env := env self; biomes := bs;
         biomeParameters := biomeParameters self;
         seaLevel := seaLevel self |}).

(** *** Heightmaps: [generateHeightmap] *)

Module glm.

Record ivec2 : Type := {
  x : Z;
  y : Z
}.

End glm.

Record Heightmap : Type := {
  hm_width : Z;
  hm_height : Z;
  hm_buffer : list float32
}.

(** Modelled from the spec: the value of every sample of a default
    heightmap ("all samples at a neutral baseline"). *)
Definition baseline : float32 := float32_zero.

(** Modelled from the spec: the constructor [Heightmap(width, height)]
    ([maths/Heightmap.hpp], not part of the translation unit): "a default
    Heightmap of the requested size with all samples at a neutral
    baseline", "a 2-D grid of elevation samples sized [size.x × size.y]". *)
Definition Heightmap_new (width height : Z) : Heightmap :=
  {| hm_width := width; hm_height := height;
     hm_buffer := replicate (Z.to_nat (width * height)) baseline |}.

(** What [lua::call_nothrow] reports: the call failed, or it returned and
    [lua::touserdata<lua::LuaHeightmap>(L, -1)] is the [LuaHeightmap] at the
    top of the stack ([None] for a null pointer). *)
Inductive call_outcome : Type :=
| CallFailed
| CallReturned (top : option Heightmap).

(** What [generateHeightmap] does: it returns a heightmap, or it
    dereferences the null pointer that [touserdata] gave it. *)
Inductive heightmap_outcome : Type :=
| Returned (map : Heightmap)
| NullDereference.

Section Interpreter.

(** The state of the interpreter behind [lua::get_main_thread()]: whatever
    the scripts have stored, in their environments and elsewhere. *)
Variable lua_State : Type.

(** A function value of the interpreter, called with integer arguments: its
    outcome and the state it leaves. *)
Definition lua_function : Type :=
  list Z -> lua_State -> call_outcome * lua_State.

(** [lua::pushenv] followed by [lua::getfield]: the function bound to a name
    in an environment, if any. *)
Variable getfield : lua_State -> scriptenv -> string -> option lua_function.

(** The five integers pushed by [pushivec_stack], [pushivec_stack] and
    [pushinteger]; the seed is converted from [uint64_t] to [lua_Integer]. *)
Definition heightmap_arguments (offset size : glm.ivec2) (seed : Z) : list Z :=
  [glm.x offset; glm.y offset; glm.x size; glm.y size; Int.wrap_int64 seed].

(** [LuaGeneratorScript::generateHeightmap]. *)
Definition generateHeightmap (self : LuaGeneratorScript)
    (offset size : glm.ivec2) (seed : Z) (L : lua_State)
  : heightmap_outcome * lua_State :=
  match getfield L (env self) "generate_heightmap" with
  | Some f =>
      match f (heightmap_arguments offset size seed) L with
      | (CallReturned (Some map), L) => (Returned map, L)
      | (CallReturned None, L) => (NullDereference, L)
      | (CallFailed, L) =>
          (Returned (Heightmap_new (glm.x size) (glm.y size)), L)
      end
  | None => (Returned (Heightmap_new (glm.x size) (glm.y size)), L)
  end.

(** Two calls in a row with the same arguments: both outcomes. *)
Definition generateHeightmap_twice (self : LuaGeneratorScript)
    (offset size : glm.ivec2) (seed : Z) (L : lua_State)
  : heightmap_outcome * heightmap_outcome :=
  let '(first, L) := generateHeightmap self offset size seed L in
  let '(second, _) := generateHeightmap self offset size seed L in
  (first, second).

End Interpreter.

Arguments generateHeightmap {lua_State} getfield self offset size seed L.
Arguments generateHeightmap_twice {lua_State} getfield self offset size seed L.

(** * Vocabulary of the specification *)

(** The layer that [load_layer] builds from an entry with both required
    fields. *)
Definition to_layer (entry : raw_layer) : BlocksLayer :=
  {| block := default "" (rl_block entry);
     height := Int.wrap_int (default 0 (rl_height entry));
     belowSeaLevel := lua.get_boolean_field (rl_below_sea_level entry) true;
     rt_id := rt_default |}.

Definition well_formed (entry : raw_layer) : Prop :=
  is_Some (rl_block entry) /\ is_Some (rl_height entry).

(** An entry whose [height] reads [-1]. *)
Definition is_elastic (entry : raw_layer) : bool :=
  match rl_height entry with
  | Some h => (Int.wrap_int h =? -1)%Z
  | None => false
  end.

Definition count_elastic (entries : list raw_layer) : nat :=
  length (List.filter is_elastic entries).

Definition elastic_layer (layer : BlocksLayer) : bool :=
  (height layer =? -1)%Z.

(** The layers that follow the first elastic layer of a stack. *)
Fixpoint after_first_elastic (ls : list BlocksLayer) : list BlocksLayer :=
  match ls with
  | [] => []
  | layer :: rest =>
      if elastic_layer layer then rest else after_first_elastic rest
  end.

Definition sum_heights (ls : list BlocksLayer) : Z :=
  foldr (fun layer s => (height layer + s)%Z) 0%Z ls.

(** The layers of a generator in the order [prepare] visits them. *)
Definition biome_layers (biome : Biome) : list BlocksLayer :=
  layers (groundLayers biome) ++ layers (seaLayers biome).

Definition generator_layers (self : LuaGeneratorScript) : list BlocksLayer :=
  flat_map biome_layers (biomes self).

(** A layer whose block name the registry knows, and the layer once bound. *)
Definition resolved (content : Content) (layer : BlocksLayer) : Prop :=
  is_Some (blocks content !! block layer).

Definition bound_layer (content : Content) (layer : BlocksLayer) : BlocksLayer :=
  match blocks content !! block layer with
  | Some def => set_rt_id layer (Block_rt_id def)
  | None => layer
  end.

Definition bound_stack (content : Content) (stack : BlocksLayers) : BlocksLayers :=
  set_layers stack (map (bound_layer content) (layers stack)).

Definition bound_biome (content : Content) (biome : Biome) : Biome :=
  {| name := name biome; parameters := parameters biome;
     groundLayers := bound_stack content (groundLayers biome);
     seaLayers := bound_stack content (seaLayers biome) |}.

Definition bound_generator (content : Content) (self : LuaGeneratorScript)
  : LuaGeneratorScript :=
  {| env := env self; biomes := map (bound_biome content) (biomes self);
     biomeParameters := biomeParameters self; seaLevel := seaLevel self |}.

(** ** Auxiliary notions *)

(** The state that [load_layer] leaves in its reference parameters when it
    returns. *)
Definition next_height (entry : raw_layer) (last : Z) (has : bool) : Z :=
  if has then Int.wrap_uint (last + height (to_layer entry)) else last.

Definition next_has (entry : raw_layer) (has : bool) : bool :=
  has || is_elastic entry.

(** The four ways through [load_layer]. *)
Inductive load_layer_spec (entry : raw_layer) (last : Z) (has : bool)
  : result (BlocksLayer * (Z * bool)) -> Prop :=
| load_layer_no_block :
    rl_block entry = None ->
    load_layer_spec entry last has (Throw (lua.no_member "block"))
| load_layer_no_height :
    is_Some (rl_block entry) -> rl_height entry = None ->
    load_layer_spec entry last has (Throw (lua.no_member "height"))
| load_layer_second_elastic :
    well_formed entry -> is_elastic entry = true -> has = true ->
    load_layer_spec entry last has (Throw only_one_resizeable)
| load_layer_returns :
    well_formed entry -> is_elastic entry && has = false ->
    load_layer_spec entry last has
      (Ok (to_layer entry, (next_height entry last has, next_has entry has))).

(** The accumulator after the loop has read [entries]. *)
Fixpoint final_height (entries : list raw_layer) (last : Z) (has : bool) : Z :=
  match entries with
  | [] => last
  | entry :: rest =>
      final_height rest (next_height entry last has) (next_has entry has)
  end.

(** The elastic entries counted so far: one when the flag is set. *)
Definition seen (has : bool) : nat := if has then 1 else 0.

(** A parameter entry with both numeric fields, and the parameter that the
    loop of [load_biome] builds from it. *)
Definition well_formed_parameter (entry : raw_parameter) : Prop :=
  is_Some (rp_value entry) /\ is_Some (rp_weight entry).

Definition to_parameter (entry : raw_parameter) : BiomeParameter :=
  {| value := Float32 (default 0%float (rp_value entry));
     weight := Float32 (default 0%float (rp_weight entry)) |}.

(** A biome entry with one of its stack fields removed or replaced. *)
Definition without_layers (entry : raw_biome) : raw_biome :=
  {| rb_parameters := rb_parameters entry;
     rb_layers := None;
     rb_sea_layers := rb_sea_layers entry |}.

Definition without_sea_layers (entry : raw_biome) : raw_biome :=
  {| rb_parameters := rb_parameters entry;
     rb_layers := rb_layers entry;
     rb_sea_layers := None |}.

Definition with_layers (entry : raw_biome) (entries : list raw_layer)
  : raw_biome :=
  {| rb_parameters := rb_parameters entry;
     rb_layers := Some entries;
     rb_sea_layers := rb_sea_layers entry |}.

Definition with_sea_layers (entry : raw_biome) (entries : list raw_layer)
  : raw_biome :=
  {| rb_parameters := rb_parameters entry;
     rb_layers := rb_layers entry;
     rb_sea_layers := Some entries |}.

(** The ways [load_biome] ends that are not the elastic rule's doing. *)
Inductive unrelated_outcome (name : string) (count : Z) : result Biome -> Prop :=
| biome_loaded biome :
    unrelated_outcome name count (Ok biome)
| biome_missing_field f :
    unrelated_outcome name count (Throw (lua.no_member f))
| biome_short_table :
    unrelated_outcome name count
      (Throw (to_string count +:+ " parameters expected"))
| biome_layer_missing_field fieldname k f :
    unrelated_outcome name count
      (Throw (biome_error name
                (layers_error fieldname k (lua.no_member f)))).

(** The text that [blocks_require] throws for the block of a layer. *)
Definition missing_block (layer : BlocksLayer) : string :=
  "missing content unit " +:+ block layer.

(** Interpreters for a few generator scripts. *)
Module Scripts.

(** An environment without entry point. *)
Definition no_entry (L : unit) (e : scriptenv) (fieldname : string)
  : option (lua_function unit) := None.

(** [function generate_heightmap() error("fault") end] *)
Definition faulty (L : unit) (e : scriptenv) (fieldname : string)
  : option (lua_function unit) :=
  if String.eqb fieldname "generate_heightmap"
  then Some (fun _ L => (CallFailed, L))
  else None.

(** [function generate_heightmap(x, y, w, h, seed) return Heightmap(w, h)
    end]: a script without state. *)
Definition flat (L : unit) (e : scriptenv) (fieldname : string)
  : option (lua_function unit) :=
  if String.eqb fieldname "generate_heightmap"
  then Some (fun args L =>
               (CallReturned
                  (Some (Heightmap_new (nth 2 args 0) (nth 3 args 0))), L))
  else None.

(** A script that counts its calls in a variable of its own; the
    interpreter state is the counter.
    [local calls = 0
     function generate_heightmap(x, y, w, h, seed)
       calls = calls + 1
       return Heightmap(w, calls)
     end] *)
Definition counting (calls : Z) (e : scriptenv) (fieldname : string)
  : option (lua_function Z) :=
  if String.eqb fieldname "generate_heightmap"
  then Some (fun args calls =>
               (CallReturned
                  (Some (Heightmap_new (nth 2 args 0) (calls + 1))),
                calls + 1))
  else None.

Definition origin : glm.ivec2 := {| glm.x := 0; glm.y := 0 |}.
Definition chunk : glm.ivec2 := {| glm.x := 16; glm.y := 16 |}.

End Scripts.

(** ** Scenarios of the specification *)

Module Scenario.

Definition layer (blockname : string) (h : Z) : raw_layer :=
  {| rl_block := Some blockname; rl_height := Some h;
     rl_below_sea_level := None |}.

Definition parameter (v w : float) : raw_parameter :=
  {| rp_value := Some v; rp_weight := Some w |}.

Definition ground : list raw_layer :=
  [layer "grass" 1; layer "dirt" (-1); layer "stone" 20].

(** [biome_parameters = 2], [sea_level = 63], one biome ["plains"]. *)
Definition plains : raw_biome :=
  {| rb_parameters :=
       Some [parameter 0.5 1; parameter 0x1.3333333333333p-2 1];
     rb_layers := Some ground;
     rb_sea_layers := None |}.

Definition definition (biome : raw_biome) : raw_generator :=
  {| rg_biome_parameters := Some 2; rg_sea_level := Some 63;
     rg_biomes := BiomesTable [("plains", biome)] |}.

(** The same biome with two elastic layers in [sea_layers]. *)
Definition plains_two_elastic_sea : raw_biome :=
  {| rb_parameters := rb_parameters plains;
     rb_layers := rb_layers plains;
     rb_sea_layers := Some [layer "water" (-1); layer "ice" (-1)] |}.

(** A registry that knows ["grass"] and ["dirt"] but not ["stone"]. *)
Definition content_without_stone : Content :=
  {| blocks :=
       <["grass" := {| Block_name := "grass"; Block_rt_id := 2 |}]>
       (<["dirt" := {| Block_name := "dirt"; Block_rt_id := 1 |}]> ∅) |}.

Definition content_with_stone : Content :=
  {| blocks :=
       <["stone" := {| Block_name := "stone"; Block_rt_id := 3 |}]>
       (blocks content_without_stone) |}.

(** The generator that [load_generator] builds from the scenario. *)
Definition loaded : LuaGeneratorScript :=
  Eval vm_compute in
    match load_generator 256 1 (definition plains) with
    | Ok self => self
    | Throw _ =>
        {| env := 1; biomes := []; biomeParameters := 0; seaLevel := 0 |}
    end.

End Scenario.

(** ** Notions for the loader as a whole and for rebinding *)

(** The parameter count that [load_generator] reads and hands to every
    [load_biome]. *)
Definition parameters_count (script : raw_generator) : Z :=
  Int.wrap_uint (lua.get_integer_field (rg_biome_parameters script) 0 0 16).

(** An entry of the [biomes] table that [load_biome] accepts. *)
Definition loads (count : Z) (keyed : string * raw_biome) : Prop :=
  exists biome, load_biome keyed.2 keyed.1 count = Ok biome.

(** Why [load_layer] throws at an entry, [earlier] elastic entries having
    been read before it. *)
Definition entry_failure (entry : raw_layer) (earlier : nat) (cause : string)
  : Prop :=
  (rl_block entry = None /\ cause = lua.no_member "block") \/
  (is_Some (rl_block entry) /\ rl_height entry = None /\
   cause = lua.no_member "height") \/
  (well_formed entry /\ is_elastic entry = true /\ earlier = 1%nat /\
   cause = only_one_resizeable).


(** A generator with the runtime ids of its layers reset. *)
Definition unbound_layer (layer : BlocksLayer) : BlocksLayer :=
  set_rt_id layer rt_default.

Definition unbound_stack (stack : BlocksLayers) : BlocksLayers :=
  set_layers stack (map unbound_layer (layers stack)).

Definition unbound_biome (biome : Biome) : Biome :=
  {| name := name biome; parameters := parameters biome;
     groundLayers := unbound_stack (groundLayers biome);
     seaLayers := unbound_stack (seaLayers biome) |}.

Definition unbound_generator (self : LuaGeneratorScript) : LuaGeneratorScript :=
  {| env := env self; biomes := map unbound_biome (biomes self);
     biomeParameters := biomeParameters self; seaLevel := seaLevel self |}.


(** * Properties *)

(** ** Facts about machine integers *)

Module IntFacts.

Lemma wrap_uint_range z : 0 <= Int.wrap_uint z < Int.modulus32.
Proof. unfold Int.wrap_uint, Int.modulus32. apply Z.mod_pos_bound. lia. Qed.

Lemma wrap_uint_small z : 0 <= z < Int.modulus32 -> Int.wrap_uint z = z.
Proof. intros H. unfold Int.wrap_uint. now apply Z.mod_small. Qed.

Lemma wrap_uint_idem z : Int.wrap_uint (Int.wrap_uint z) = Int.wrap_uint z.
Proof. apply wrap_uint_small, wrap_uint_range. Qed.

Lemma wrap_uint_add_l a b : Int.wrap_uint (Int.wrap_uint a + b) = Int.wrap_uint (a + b).
Proof. unfold Int.wrap_uint, Int.modulus32. now rewrite Z.add_mod_idemp_l by lia. Qed.

Lemma wrap_int_range z : - 2 ^ 31 <= Int.wrap_int z < 2 ^ 31.
Proof.
  unfold Int.wrap_int, Int.modulus32.
  pose proof (Z.mod_pos_bound (z + 2 ^ 31) (2 ^ 32)). lia.
Qed.

Lemma wrap_int_small z : - 2 ^ 31 <= z < 2 ^ 31 -> Int.wrap_int z = z.
Proof.
  intros H. unfold Int.wrap_int, Int.modulus32.
  rewrite Z.mod_small; lia.
Qed.

End IntFacts.

(** ** The loader: one entry *)

Lemma no_member_not_only_one fieldname :
  lua.no_member fieldname <> only_one_resizeable.
Proof. unfold lua.no_member, only_one_resizeable. intros H. inversion H. Qed.

Lemma load_layer_cases entry last has :
  load_layer_spec entry last has (load_layer entry last has).
Proof.
  assert (Returns : forall r,
    well_formed entry -> is_elastic entry && has = false ->
    r = Ok (to_layer entry, (next_height entry last has, next_has entry has)) ->
    load_layer_spec entry last has r).
  { intros r Hwf He ->. now apply load_layer_returns. }
  revert Returns. unfold load_layer.
  destruct entry as [[b|] [h|] sea]; simpl; intros Returns.
  - destruct (Int.wrap_int h =? -1)%Z eqn:E, has.
    + apply load_layer_second_elastic; [split; eauto | | reflexivity].
      unfold is_elastic; simpl. exact E.
    + apply Returns; [split; eauto | apply andb_false_r |].
      unfold to_layer, next_height, next_has, is_elastic; simpl.
      now rewrite E.
    + apply Returns; [split; eauto | | reflexivity].
      unfold is_elastic; simpl. now rewrite E.
    + apply Returns; [split; eauto | apply andb_false_r |].
      unfold to_layer, next_height, next_has, is_elastic; simpl.
      now rewrite E.
  - apply load_layer_no_height; eauto.
  - apply load_layer_no_block; reflexivity.
  - apply load_layer_no_block; reflexivity.
Qed.

(** ** The loader: one stack *)

Lemma count_elastic_cons entry rest :
  count_elastic (entry :: rest) = (seen (is_elastic entry) + count_elastic rest)%nat.
Proof. unfold count_elastic. simpl. now destruct (is_elastic entry). Qed.

Lemma seen_next_has entry has :
  seen (next_has entry has) = (seen has + seen (is_elastic entry) - seen (is_elastic entry && has))%nat.
Proof. unfold next_has. now destruct has, (is_elastic entry). Qed.

Ltac step_layer entry last has :=
  let H := fresh "Hstep" in
  pose proof (load_layer_cases entry last has) as H;
  inversion H as [ ?Hblock Heq | ?Hblock ?Hheight Heq
                 | ?Hwf ?Helastic ?Hhas Heq | ?Hwf ?Hfirst Heq ];
  clear H; simpl; rewrite <- Heq; simpl; clear Heq.

(** A stack of well-formed entries with at most one elastic entry loads. *)
Lemma load_layers_loop_returns fieldname entries : forall i last has acc,
  Forall well_formed entries ->
  (count_elastic entries + seen has <= 1)%nat ->
  load_layers_loop fieldname i entries last has acc =
  Ok {| layers := acc ++ map to_layer entries;
        lastLayersHeight := final_height entries last has |}.
Proof.
  induction entries as [|entry rest IH]; intros i last has acc Hwf Hcount.
  - simpl. now rewrite app_nil_r.
  - rewrite count_elastic_cons in Hcount.
    apply Forall_cons in Hwf as [Hentry Hrest].
    step_layer entry last has.
    + destruct Hentry as [[b Hb] _]. congruence.
    + destruct Hentry as [_ [h Hh]]. congruence.
    + subst has. rewrite Helastic in Hcount. simpl in Hcount. lia.
    + rewrite IH; [now rewrite <- app_assoc | assumption |].
      rewrite seen_next_has, Hfirst.
      destruct (is_elastic entry), has; simpl in *; lia.
Qed.

(** Conversely, only such a stack loads, and the loaded stack is determined. *)
Lemma load_layers_loop_inv fieldname entries : forall i last has acc stack,
  load_layers_loop fieldname i entries last has acc = Ok stack ->
  Forall well_formed entries /\
  (count_elastic entries + seen has <= 1)%nat /\
  stack = {| layers := acc ++ map to_layer entries;
             lastLayersHeight := final_height entries last has |}.
Proof.
  induction entries as [|entry rest IH]; intros i last has acc stack.
  - simpl. intros [= <-]. rewrite app_nil_r.
    repeat split; [constructor | destruct has; simpl; lia].
  - step_layer entry last has; try discriminate.
    intros Hloop. apply IH in Hloop as (Hrest & Hcount & ->).
    rewrite count_elastic_cons. rewrite seen_next_has, Hfirst in Hcount.
    repeat split.
    + now constructor.
    + destruct (is_elastic entry), has; simpl in *; try discriminate; lia.
    + now rewrite <- app_assoc.
Qed.

(** Whatever the entries are, the loop returns or throws a text built by its
    [catch], for an index it has visited. *)
Lemma load_layers_loop_outcome fieldname entries : forall i last has acc,
  (exists stack, load_layers_loop fieldname i entries last has acc = Ok stack) \/
  (exists k what,
     load_layers_loop fieldname i entries last has acc =
       Throw (layers_error fieldname k what) /\
     (i <= k < i + Z.of_nat (length entries))%Z /\
     (what = only_one_resizeable \/ exists f, what = lua.no_member f)).
Proof.
  induction entries as [|entry rest IH]; intros i last has acc.
  - left. simpl. eauto.
  - assert (Hlen : (Z.of_nat (length (entry :: rest)) =
                    1 + Z.of_nat (length rest))%Z) by (simpl length; lia).
    rewrite Hlen. clear Hlen.
    step_layer entry last has.
    + right. exists i, (lua.no_member "block"). repeat split; eauto; lia.
    + right. exists i, (lua.no_member "height"). repeat split; eauto; lia.
    + right. exists i, only_one_resizeable. repeat split; eauto; lia.
    + destruct (IH (i + 1)%Z (next_height entry last has) (next_has entry has)
                  (acc ++ [to_layer entry]))
        as [[stack Hs] | (k & what & Hk & Hrange & Hwhat)].
      * left. eauto.
      * right. exists k, what. repeat split; eauto; lia.
Qed.

Lemma is_elastic_height entry :
  is_elastic entry = true -> is_Some (rl_height entry).
Proof. unfold is_elastic. destruct (rl_height entry); [eauto | discriminate]. Qed.

Lemma elastic_layer_to_layer entry :
  elastic_layer (to_layer entry) = is_elastic entry.
Proof.
  unfold elastic_layer, is_elastic, to_layer. simpl.
  now destruct (rl_height entry).
Qed.

Lemma count_elastic_to_layer entries :
  length (List.filter elastic_layer (map to_layer entries)) =
  count_elastic entries.
Proof.
  unfold count_elastic.
  induction entries as [|entry rest IH]; simpl; [reflexivity |].
  rewrite elastic_layer_to_layer.
  destruct (is_elastic entry); simpl; now rewrite IH.
Qed.

(** Once an elastic entry has been read, a second one stops the loop: at
    that entry when everything before it is well formed ... *)
Lemma load_layers_loop_second_elastic fieldname l1 entry l2 :
  forall i last has acc,
  Forall well_formed l1 ->
  (count_elastic l1 + seen has = 1)%nat ->
  is_elastic entry = true ->
  is_Some (rl_block entry) ->
  load_layers_loop fieldname i (l1 ++ entry :: l2) last has acc =
  Throw (layers_error fieldname (i + Z.of_nat (length l1)) only_one_resizeable).
Proof.
  induction l1 as [|first l1 IH]; intros i last has acc Hwf Hcount He Hb.
  - simpl app. simpl length. rewrite Z.add_0_r.
    assert (has = true) as ->
      by (destruct has; [reflexivity | simpl in Hcount; lia]).
    step_layer entry last true; try reflexivity.
    + destruct Hb as [b Hb]. congruence.
    + apply is_elastic_height in He as [h Hh]. congruence.
    + rewrite He in Hfirst. discriminate.
  - apply Forall_cons in Hwf as [Hfirstwf Hwf].
    rewrite count_elastic_cons in Hcount.
    simpl app.
    step_layer first last has.
    + destruct Hfirstwf as [[b Hb'] _]. congruence.
    + destruct Hfirstwf as [_ [h Hh]]. congruence.
    + subst has. rewrite Helastic in Hcount. simpl in Hcount. lia.
    + rewrite IH; try assumption.
      * f_equal. f_equal. simpl length. lia.
      * rewrite seen_next_has, Hfirst.
        destruct (is_elastic first), has; simpl in *; try discriminate; lia.
Qed.

(** ... and no later than that entry in any case. *)
Lemma load_layers_loop_second_elastic_throws fieldname l1 entry l2 :
  forall i last has acc,
  (1 <= count_elastic l1 + seen has)%nat ->
  is_elastic entry = true ->
  exists k what,
    load_layers_loop fieldname i (l1 ++ entry :: l2) last has acc =
      Throw (layers_error fieldname k what) /\
    (i <= k <= i + Z.of_nat (length l1))%Z.
Proof.
  induction l1 as [|first l1 IH]; intros i last has acc Hcount He.
  - simpl app. simpl length.
    assert (has = true) as ->
      by (destruct has; [reflexivity | simpl in Hcount; lia]).
    step_layer entry last true;
      try (eexists i, _; split; [reflexivity | lia]).
    rewrite He in Hfirst. discriminate.
  - rewrite count_elastic_cons in Hcount. simpl app.
    assert (Hlen : Z.of_nat (length (first :: l1)) = 1 + Z.of_nat (length l1))
      by (simpl length; lia).
    rewrite Hlen. clear Hlen.
    step_layer first last has;
      try (eexists i, _; split; [reflexivity | lia]).
    destruct (IH (i + 1) (next_height first last has) (next_has first has)
                (acc ++ [to_layer first])) as (k & what & Hk & Hrange).
    + rewrite seen_next_has, Hfirst.
      destruct (is_elastic first), has; simpl in *; try discriminate; lia.
    + assumption.
    + exists k, what. split; [assumption | lia].
Qed.

(** With at most one elastic entry the loop never throws the elastic error. *)
Lemma load_layers_loop_one_elastic fieldname entries : forall i last has acc,
  (count_elastic entries + seen has <= 1)%nat ->
  (exists stack, load_layers_loop fieldname i entries last has acc = Ok stack) \/
  (exists k f,
     load_layers_loop fieldname i entries last has acc =
       Throw (layers_error fieldname k (lua.no_member f))).
Proof.
  induction entries as [|entry rest IH]; intros i last has acc Hcount.
  - left. simpl. eauto.
  - rewrite count_elastic_cons in Hcount.
    step_layer entry last has.
    + right. eauto.
    + right. eauto.
    + subst has. rewrite Helastic in Hcount. simpl in Hcount. lia.
    + apply IH. rewrite seen_next_has, Hfirst.
      destruct (is_elastic entry), has; simpl in *; try discriminate; lia.
Qed.

(** The accumulator is the wrapped sum of the heights read after the first
    elastic entry. *)
Lemma final_height_sum entries : forall last has,
  0 <= last < Int.modulus32 ->
  final_height entries last has =
  Int.wrap_uint
    (last + sum_heights (if has then map to_layer entries
                         else after_first_elastic (map to_layer entries))).
Proof.
  induction entries as [|entry rest IH]; intros last has Hlast.
  - simpl. destruct has; simpl; rewrite Z.add_0_r;
      symmetry; now apply IntFacts.wrap_uint_small.
  - simpl final_height. unfold next_height, next_has.
    destruct has; simpl orb.
    + rewrite IH by apply IntFacts.wrap_uint_range.
      rewrite IntFacts.wrap_uint_add_l. simpl. f_equal. lia.
    + simpl map. simpl after_first_elastic.
      rewrite elastic_layer_to_layer. rewrite IH by assumption.
      now destruct (is_elastic entry).
Qed.

Lemma load_layers_inv field fieldname stack :
  load_layers field fieldname = Ok stack ->
  let entries := default [] field in
  Forall well_formed entries /\
  (count_elastic entries <= 1)%nat /\
  layers stack = map to_layer entries /\
  lastLayersHeight stack = final_height entries 0 false.
Proof.
  destruct field as [entries|]; simpl.
  - intros H. apply load_layers_loop_inv in H as (Hwf & Hcount & ->).
    simpl in *. repeat split; [assumption | lia].
  - intros [= <-]. cbv zeta. simpl.
    split; [apply List.Forall_nil | split; [| split; reflexivity]].
    unfold count_elastic. simpl. lia.
Qed.

(** C2, as stated, at a list whose first entry has no [block] field and
    whose second and third entries are elastic: the load fails at entry 1,
    and the error does not carry the index of the second elastic entry. *)
Lemma load_layers_malformed_entry_fails_first :
  let entries :=
    [ {| rl_block := None; rl_height := Some 5; rl_below_sea_level := None |};
      Scenario.layer "dirt" (-1); Scenario.layer "stone" (-1) ] in
  count_elastic entries = 2%nat /\
  nth_error (List.map is_elastic entries) 2 = Some true /\
  load_layers (Some entries) "layers" =
    Throw (layers_error "layers" 1 (lua.no_member "block")) /\
  ~ (exists what,
       load_layers (Some entries) "layers" =
         Throw (layers_error "layers" 3 what)).
Proof.
  repeat split; try reflexivity.
  intros [what H]. vm_compute in H. congruence.
Qed.

(** C2 (amended): a list with a second elastic entry, at 1-based index [j],
    fails to load with an error that carries the field name and an index
    not beyond [j]; when the entries before it have their [block] and
    [height] fields and it has its [block] field, the error is the elastic
    one and carries exactly [j].  A list with at most one elastic entry
    loads or fails for a missing field, never for this reason. *)
Theorem load_layers_elastic_rule fieldname :
  (forall l1 entry l2,
     count_elastic l1 = 1%nat -> is_elastic entry = true ->
     let j := Z.of_nat (length l1) + 1 in
     (exists k what,
        load_layers (Some (l1 ++ entry :: l2)) fieldname =
          Throw (layers_error fieldname k what) /\ 1 <= k <= j) /\
     (Forall well_formed l1 -> is_Some (rl_block entry) ->
      load_layers (Some (l1 ++ entry :: l2)) fieldname =
        Throw (layers_error fieldname j only_one_resizeable))) /\
  (forall entries,
     (count_elastic entries <= 1)%nat ->
     (exists stack, load_layers (Some entries) fieldname = Ok stack) \/
     (exists k f,
        load_layers (Some entries) fieldname =
          Throw (layers_error fieldname k (lua.no_member f)) /\
        lua.no_member f <> only_one_resizeable)).
Proof.
  split.
  - intros l1 entry l2 Hcount He j. subst j. unfold load_layers. split.
    + destruct (load_layers_loop_second_elastic_throws fieldname l1 entry l2
                  1 0 false []) as (k & what & Hk & Hrange);
        [simpl; lia | assumption |].
      exists k, what. split; [assumption | lia].
    + intros Hwf Hb.
      rewrite load_layers_loop_second_elastic; try assumption.
      * f_equal. f_equal. lia.
      * simpl. lia.
  - intros entries Hcount. unfold load_layers.
    destruct (load_layers_loop_one_elastic fieldname entries 1 0 false [])
      as [Hok | (k & f & Hk)]; [simpl; lia | now left |].
    right. exists k, f. split; [assumption | apply no_member_not_only_one].
Qed.

Lemma load_layers_elastic_rule_witness :
  load_layers
    (Some ([Scenario.layer "water" (-1)] ++ Scenario.layer "ice" (-1) :: []))
    "sea_layers" =
    Throw (layers_error "sea_layers" 2 only_one_resizeable) /\
  ((exists stack, load_layers (Some Scenario.ground) "layers" = Ok stack) \/
   (exists k f,
      load_layers (Some Scenario.ground) "layers" =
        Throw (layers_error "layers" k (lua.no_member f)) /\
      lua.no_member f <> only_one_resizeable)).
Proof.
  split.
  - apply (proj1 (load_layers_elastic_rule "sea_layers")
             [Scenario.layer "water" (-1)] (Scenario.layer "ice" (-1)) []).
    + reflexivity.
    + reflexivity.
    + repeat constructor; simpl; eauto.
    + simpl; eauto.
  - apply (proj2 (load_layers_elastic_rule "layers") Scenario.ground).
    vm_compute. lia.
Defined.

(** C3, as stated, at stacks the loader accepts: a negative height after the
    elastic layer, and heights whose sum exceeds 32 bits.  The accumulator
    is an unsigned 32-bit integer and differs from the sum. *)
Lemma lastLayersHeight_differs_from_sum :
  (exists stack,
     load_layers
       (Some [Scenario.layer "dirt" (-1); Scenario.layer "stone" (-2)])
       "layers" = Ok stack /\
     sum_heights (after_first_elastic (layers stack)) = -2 /\
     lastLayersHeight stack = 4294967294 /\
     lastLayersHeight stack <>
       sum_heights (after_first_elastic (layers stack))) /\
  (exists stack,
     load_layers
       (Some [Scenario.layer "dirt" (-1); Scenario.layer "stone" 2147483647;
              Scenario.layer "basalt" 2147483647;
              Scenario.layer "bedrock" 2147483647])
       "layers" = Ok stack /\
     sum_heights (after_first_elastic (layers stack)) = 6442450941 /\
     lastLayersHeight stack = 2147483645 /\
     lastLayersHeight stack <>
       sum_heights (after_first_elastic (layers stack))).
Proof.
  split; eexists; (split; [reflexivity |]); vm_compute; repeat split; congruence.
Qed.

(** C3 (amended): for every layer list loaded successfully,
    [lastLayersHeight] (the spec's totalFixedHeight) is the sum, reduced
    modulo 2^32, of the heights of the layers after the first elastic
    layer, hence that sum itself whenever it lies in [0, 2^32); the stack
    holds at most one elastic layer.  The scenario's ground stack loads with
    3 layers, the dirt layer elastic, and the accumulator at 20. *)
Theorem load_layers_lastLayersHeight :
  (forall field fieldname stack,
     load_layers field fieldname = Ok stack ->
     let after := after_first_elastic (layers stack) in
     lastLayersHeight stack = Int.wrap_uint (sum_heights after) /\
     (0 <= sum_heights after < Int.modulus32 ->
      lastLayersHeight stack = sum_heights after) /\
     (length (List.filter elastic_layer (layers stack)) <= 1)%nat) /\
  (exists grass dirt stone,
     load_layers (Some Scenario.ground) "layers" =
       Ok {| layers := [grass; dirt; stone]; lastLayersHeight := 20 |} /\
     block dirt = "dirt" /\ elastic_layer dirt = true /\
     elastic_layer grass = false /\ elastic_layer stone = false /\
     after_first_elastic [grass; dirt; stone] = [stone] /\
     height stone = 20).
Proof.
  split.
  - intros field fieldname stack H after.
    apply load_layers_inv in H as (Hwf & Hcount & Hlayers & Hlast).
    assert (Hsum : lastLayersHeight stack = Int.wrap_uint (sum_heights after)).
    { rewrite Hlast, final_height_sum by (vm_compute; split; congruence).
      subst after. now rewrite Hlayers. }
    repeat split.
    + exact Hsum.
    + intros Hrange. rewrite Hsum. now apply IntFacts.wrap_uint_small.
    + now rewrite Hlayers, count_elastic_to_layer.
  - do 3 eexists. split; [reflexivity |]. repeat split.
Qed.

Lemma load_layers_lastLayersHeight_witness :
  lastLayersHeight
    {| layers := map to_layer Scenario.ground; lastLayersHeight := 20 |} =
  sum_heights
    (after_first_elastic
       (layers {| layers := map to_layer Scenario.ground;
                  lastLayersHeight := 20 |})).
Proof.
  apply (proj1 load_layers_lastLayersHeight (Some Scenario.ground) "layers").
  - reflexivity.
  - vm_compute. split; congruence.
Defined.

(** ** The loader: one biome *)

Lemma load_parameters_loop_length entries : forall acc ps,
  load_parameters_loop entries acc = Ok ps ->
  length ps = (length acc + length entries)%nat.
Proof.
  induction entries as [|[[v|] [w|]] rest IH]; intros acc ps; simpl;
    try discriminate.
  - intros [= <-]. lia.
  - intros H. apply IH in H. rewrite length_app in H. simpl in H. lia.
Qed.

Lemma load_parameters_loop_returns entries : forall acc,
  Forall well_formed_parameter entries ->
  load_parameters_loop entries acc = Ok (acc ++ map to_parameter entries).
Proof.
  induction entries as [|entry rest IH]; intros acc Hwf; simpl.
  - now rewrite app_nil_r.
  - apply Forall_cons in Hwf as [[[v Hv] [w Hw]] Hrest].
    destruct entry as [ev ew]. simpl in *. subst ev ew. simpl.
    rewrite IH by assumption. now rewrite <- app_assoc.
Qed.

(** What [load_biome] has done when it returns. *)
Lemma load_biome_inv entry name count biome :
  load_biome entry name count = Ok biome ->
  exists table ps ground sea,
    rb_parameters entry = Some table /\
    (count <= Z.of_nat (length table)) /\
    load_parameters_loop (take (Z.to_nat count) table)
      (replicate (Z.to_nat count) BiomeParameter_default) = Ok ps /\
    load_layers (rb_layers entry) "layers" = Ok ground /\
    load_layers (rb_sea_layers entry) "sea_layers" = Ok sea /\
    biome = {| name := name; parameters := ps;
               groundLayers := ground; seaLayers := sea |}.
Proof.
  unfold load_biome.
  destruct (rb_parameters entry) as [table|]; simpl; [|discriminate].
  destruct (Z.of_nat (length table) <? count) eqn:Hlen; [discriminate |].
  apply Z.ltb_ge in Hlen.
  destruct (load_parameters_loop _ _) as [ps|] eqn:Hps; simpl; [|discriminate].
  destruct (load_layers (rb_layers entry) "layers") as [ground|] eqn:Hg;
    simpl; [|discriminate].
  destruct (load_layers (rb_sea_layers entry) "sea_layers") as [sea|] eqn:Hs;
    simpl; [|discriminate].
  intros [= <-]. exists table, ps, ground, sea. repeat split; assumption.
Qed.

(** A biome whose stacks load and whose parameter table is long enough and
    well formed loads. *)
Lemma load_biome_returns entry name count table ground sea :
  rb_parameters entry = Some table ->
  count <= Z.of_nat (length table) ->
  Forall well_formed_parameter (take (Z.to_nat count) table) ->
  load_layers (rb_layers entry) "layers" = Ok ground ->
  load_layers (rb_sea_layers entry) "sea_layers" = Ok sea ->
  load_biome entry name count =
  Ok {| name := name;
        parameters :=
          replicate (Z.to_nat count) BiomeParameter_default ++
          map to_parameter (take (Z.to_nat count) table);
        groundLayers := ground; seaLayers := sea |}.
Proof.
  intros Htable Hlen Hwf Hg Hs. unfold load_biome.
  rewrite Htable. simpl.
  apply Z.ltb_ge in Hlen. rewrite Hlen.
  rewrite load_parameters_loop_returns by assumption. simpl.
  rewrite Hg. simpl. rewrite Hs. reflexivity.
Qed.

(** The parameters of a loaded biome: [parametersCount] value-initialised
    elements followed by the [parametersCount] that were read. *)
Lemma load_biome_parameters_length entry name count biome :
  0 <= count ->
  load_biome entry name count = Ok biome ->
  Z.of_nat (length (parameters biome)) = 2 * count /\
  take (Z.to_nat count) (parameters biome) =
    replicate (Z.to_nat count) BiomeParameter_default.
Proof.
  intros Hcount H.
  apply load_biome_inv in H
    as (table & ps & ground & sea & _ & Hlen & Hps & _ & _ & ->).
  simpl. split.
  - apply load_parameters_loop_length in Hps. rewrite Hps.
    rewrite length_replicate, length_take. lia.
  - clear Hlen. revert Hps.
    generalize (take (Z.to_nat count) table).
    assert (Hacc : forall entries acc ps,
              load_parameters_loop entries acc = Ok ps ->
              take (length acc) ps = acc).
    { induction entries as [|[[v|] [w|]] rest IH]; intros acc ps0; simpl;
        try discriminate.
      - intros [= <-]. apply firstn_all.
      - intros H. apply IH in H. rewrite length_app in H.
        apply (f_equal (take (length acc))) in H.
        rewrite take_take in H.
        rewrite Nat.min_l in H by lia.
        rewrite H. now rewrite take_app_length. }
    intros entries Hps. apply Hacc in Hps.
    now rewrite length_replicate in Hps.
Qed.

(** C4 at the scenario of the specification ([biome_parameters = 2], two
    parameters given): the biome loads with four parameters, the first two
    value-initialised.  The vector is constructed with [parametersCount]
    elements and the loop then pushes [parametersCount] more. *)
Theorem load_biome_scenario_parameters :
  exists biome,
    load_biome Scenario.plains "plains" 2 = Ok biome /\
    length (parameters biome) = 4%nat /\
    parameters biome =
      [BiomeParameter_default; BiomeParameter_default;
       {| value := Float32 0.5; weight := Float32 1 |};
       {| value := Float32 0x1.3333333333333p-2; weight := Float32 1 |}].
Proof. eexists. split; [reflexivity |]. split; reflexivity. Qed.

(** Whatever its stacks throw, [load_biome] prefixes with the biome name ... *)
Lemma load_biome_layers_throw entry name count table ps what :
  rb_parameters entry = Some table ->
  count <= Z.of_nat (length table) ->
  load_parameters_loop (take (Z.to_nat count) table)
    (replicate (Z.to_nat count) BiomeParameter_default) = Ok ps ->
  (ground ← load_layers (rb_layers entry) "layers";
   sea ← load_layers (rb_sea_layers entry) "sea_layers";
   mret (ground, sea)) = Throw what ->
  load_biome entry name count = Throw (biome_error name what).
Proof.
  intros Htable Hlen Hps Hthrow. unfold load_biome.
  rewrite Htable. simpl. apply Z.ltb_ge in Hlen. rewrite Hlen, Hps. simpl.
  now rewrite Hthrow.
Qed.

(** ... and [load_generator] prefixes whatever [load_biome] throws once
    more. *)
Lemma load_generator_biome_throw CHUNK_H new_env script biomeName entry rest what :
  rg_biomes script = BiomesTable ((biomeName, entry) :: rest) ->
  load_biome entry biomeName
    (Int.wrap_uint (lua.get_integer_field (rg_biome_parameters script) 0 0 16))
    = Throw what ->
  load_generator CHUNK_H new_env script = Throw (biome_error biomeName what).
Proof.
  intros Hbiomes Hthrow. unfold load_generator.
  rewrite Hbiomes. simpl. now rewrite Hthrow.
Qed.

(** C5 at the scenario whose [sea_layers] has a second elastic layer: the
    text that [load_generator] throws carries the biome prefix twice, once
    from the [catch] of [load_biome] and once from the [catch] of
    [load_generator]; an error of the parameter table, thrown outside the
    [try] of [load_biome], carries it once. *)
Theorem load_generator_biome_prefix_twice CHUNK_H new_env :
  load_generator CHUNK_H new_env
    (Scenario.definition Scenario.plains_two_elastic_sea) =
    Throw "biome plains: biome plains: sea_layers #2: only one resizeable layer allowed" /\
  load_generator CHUNK_H new_env
    (Scenario.definition
       {| rb_parameters := Some [Scenario.parameter 0.5 1];
          rb_layers := Some Scenario.ground; rb_sea_layers := None |}) =
    Throw "biome plains: 2 parameters expected".
Proof. split; reflexivity. Qed.

Lemma load_generator_layers_throw CHUNK_H new_env script biomeName entry rest
    table ps what :
  rg_biomes script = BiomesTable ((biomeName, entry) :: rest) ->
  let count :=
    Int.wrap_uint (lua.get_integer_field (rg_biome_parameters script) 0 0 16) in
  rb_parameters entry = Some table ->
  count <= Z.of_nat (length table) ->
  load_parameters_loop (take (Z.to_nat count) table)
    (replicate (Z.to_nat count) BiomeParameter_default) = Ok ps ->
  (ground ← load_layers (rb_layers entry) "layers";
   sea ← load_layers (rb_sea_layers entry) "sea_layers";
   mret (ground, sea)) = Throw what ->
  load_generator CHUNK_H new_env script =
  Throw (biome_error biomeName (biome_error biomeName what)).
Proof.
  intros Hbiomes count Htable Hlen Hps Hthrow.
  eapply load_generator_biome_throw; [eassumption |].
  eapply load_biome_layers_throw; eassumption.
Qed.

(** C9, as stated, at the scenario's biome with its [layers] field removed:
    the biome loads, and so does the definition that holds it. *)
Lemma load_biome_without_layers_loads :
  rb_layers (without_layers Scenario.plains) = None /\
  (exists biome,
     load_biome (without_layers Scenario.plains) "plains" 2 = Ok biome /\
     groundLayers biome = {| layers := []; lastLayersHeight := 0 |}) /\
  (forall CHUNK_H new_env,
     is_ok (load_generator CHUNK_H new_env
              (Scenario.definition (without_layers Scenario.plains))) = true).
Proof.
  split; [reflexivity |]. split.
  - eexists. split; reflexivity.
  - intros CHUNK_H new_env. reflexivity.
Qed.

(** C9 (amended): a biome entry requires neither field.  An absent [layers]
    field is read exactly as an empty list, as an absent [sea_layers] field
    is; the stack of an absent field has no layers and a zero accumulator. *)
Theorem load_biome_layers_optional entry name count :
  load_biome (without_layers entry) name count =
    load_biome (with_layers entry []) name count /\
  load_biome (without_sea_layers entry) name count =
    load_biome (with_sea_layers entry []) name count /\
  (forall biome,
     load_biome entry name count = Ok biome ->
     (rb_layers entry = None ->
      groundLayers biome = {| layers := []; lastLayersHeight := 0 |}) /\
     (rb_sea_layers entry = None ->
      seaLayers biome = {| layers := []; lastLayersHeight := 0 |})).
Proof.
  split; [reflexivity |]. split; [reflexivity |].
  intros biome H.
  apply load_biome_inv in H
    as (table & ps & ground & sea & _ & _ & _ & Hg & Hs & ->).
  simpl. split; intros Hnone.
  - rewrite Hnone in Hg. simpl in Hg. congruence.
  - rewrite Hnone in Hs. simpl in Hs. congruence.
Qed.

Lemma load_biome_layers_optional_witness :
  groundLayers
    {| name := "plains";
       parameters :=
         [BiomeParameter_default; BiomeParameter_default;
          {| value := Float32 0.5; weight := Float32 1 |};
          {| value := Float32 0x1.3333333333333p-2; weight := Float32 1 |}];
       groundLayers := {| layers := []; lastLayersHeight := 0 |};
       seaLayers := {| layers := []; lastLayersHeight := 0 |} |} =
  {| layers := []; lastLayersHeight := 0 |}.
Proof.
  apply (proj2 (proj2 (load_biome_layers_optional
                         (without_layers Scenario.plains) "plains" 2))).
  - reflexivity.
  - reflexivity.
Defined.

Lemma load_parameters_loop_throw entries : forall acc what,
  load_parameters_loop entries acc = Throw what ->
  exists f, what = lua.no_member f.
Proof.
  induction entries as [|[[v|] [w|]] rest IH]; intros acc what; simpl;
    try discriminate; try (intros [= <-]; eauto).
  apply IH.
Qed.

(** C10: the elastic rule is per stack.  A biome entry whose [layers] list
    and whose [sea_layers] list each hold exactly one elastic entry is not
    rejected by the rule: it loads, or fails for a missing field or a short
    parameter table.  It loads whenever its parameter table and its layer
    entries are well formed; each stack is read from a fresh state, so each
    accumulator is the wrapped sum of the heights after the elastic layer of
    its own stack. *)
Theorem load_biome_one_elastic_per_stack entry name count ground sea :
  rb_layers entry = Some ground ->
  rb_sea_layers entry = Some sea ->
  count_elastic ground = 1%nat ->
  count_elastic sea = 1%nat ->
  unrelated_outcome name count (load_biome entry name count) /\
  (forall table,
     rb_parameters entry = Some table ->
     count <= Z.of_nat (length table) ->
     Forall well_formed_parameter (take (Z.to_nat count) table) ->
     Forall well_formed ground ->
     Forall well_formed sea ->
     exists biome,
       load_biome entry name count = Ok biome /\
       layers (groundLayers biome) = map to_layer ground /\
       layers (seaLayers biome) = map to_layer sea /\
       lastLayersHeight (groundLayers biome) =
         Int.wrap_uint
           (sum_heights (after_first_elastic (layers (groundLayers biome)))) /\
       lastLayersHeight (seaLayers biome) =
         Int.wrap_uint
           (sum_heights (after_first_elastic (layers (seaLayers biome))))).
Proof.
  intros Hg Hs Hcg Hcs. split.
  - unfold load_biome.
    destruct (rb_parameters entry) as [table|]; simpl;
      [|apply biome_missing_field].
    destruct (Z.of_nat (length table) <? count); [apply biome_short_table |].
    destruct (load_parameters_loop _ _) as [ps|what] eqn:Hps; simpl.
    2:{ apply load_parameters_loop_throw in Hps as [f ->].
        apply biome_missing_field. }
    rewrite Hg, Hs. unfold load_layers.
    destruct (load_layers_loop_one_elastic "layers" ground 1 0 false [])
      as [[stack ->] | (k & f & ->)]; [simpl; lia | simpl |].
    2:{ simpl. apply biome_layer_missing_field. }
    destruct (load_layers_loop_one_elastic "sea_layers" sea 1 0 false [])
      as [[stack' ->] | (k & f & ->)]; [simpl; lia | simpl |].
    + apply biome_loaded.
    + apply biome_layer_missing_field.
  - intros table Htable Hlen Hps Hwfg Hwfs.
    assert (Hground : load_layers (rb_layers entry) "layers" =
              Ok {| layers := [] ++ map to_layer ground;
                    lastLayersHeight := final_height ground 0 false |}).
    { rewrite Hg. apply load_layers_loop_returns; [assumption | simpl; lia]. }
    assert (Hsea : load_layers (rb_sea_layers entry) "sea_layers" =
              Ok {| layers := [] ++ map to_layer sea;
                    lastLayersHeight := final_height sea 0 false |}).
    { rewrite Hs. apply load_layers_loop_returns; [assumption | simpl; lia]. }
    eexists. split.
    + eapply load_biome_returns; eassumption.
    + simpl. repeat split;
        apply final_height_sum; vm_compute; split; congruence.
Qed.

Lemma load_biome_one_elastic_per_stack_witness :
  exists biome,
    load_biome
      (with_sea_layers Scenario.plains
         [Scenario.layer "water" (-1); Scenario.layer "sand" 3])
      "plains" 2 = Ok biome /\
    layers (groundLayers biome) = map to_layer Scenario.ground /\
    layers (seaLayers biome) =
      map to_layer [Scenario.layer "water" (-1); Scenario.layer "sand" 3] /\
    lastLayersHeight (groundLayers biome) =
      Int.wrap_uint
        (sum_heights (after_first_elastic (layers (groundLayers biome)))) /\
    lastLayersHeight (seaLayers biome) =
      Int.wrap_uint
        (sum_heights (after_first_elastic (layers (seaLayers biome)))).
Proof.
  apply (proj2 (load_biome_one_elastic_per_stack
                  (with_sea_layers Scenario.plains
                     [Scenario.layer "water" (-1); Scenario.layer "sand" 3])
                  "plains" 2 Scenario.ground
                  [Scenario.layer "water" (-1); Scenario.layer "sand" 3]
                  eq_refl eq_refl eq_refl eq_refl)
           [Scenario.parameter 0.5 1;
            Scenario.parameter 0x1.3333333333333p-2 1]).
  - reflexivity.
  - simpl. lia.
  - repeat constructor; simpl; eauto.
  - repeat constructor; simpl; eauto.
  - repeat constructor; simpl; eauto.
Defined.

(** ** Binding block names *)

Lemma bound_layer_block content layer :
  block (bound_layer content layer) = block layer.
Proof. unfold bound_layer. now destruct (blocks content !! block layer). Qed.

Lemma bound_layer_idem content layer :
  bound_layer content (bound_layer content layer) = bound_layer content layer.
Proof.
  unfold bound_layer at 1. rewrite bound_layer_block.
  unfold bound_layer. now destruct (blocks content !! block layer).
Qed.

Lemma bound_layer_rt_id content layer :
  resolved content layer ->
  Block_rt_id <$> blocks content !! block layer =
    Some (rt_id (bound_layer content layer)).
Proof.
  intros [def Hdef]. unfold bound_layer. now rewrite Hdef.
Qed.

(** The loop over one vector: it binds every layer when all names resolve,
    and otherwise stops at the first name that does not, leaving the layers
    before it bound. *)
Lemma prepare_layers_resolved content ls :
  Forall (resolved content) ls ->
  prepare_layers content ls = (Ok tt, map (bound_layer content) ls).
Proof.
  induction 1 as [|layer rest [def Hdef] _ IH]; simpl; [reflexivity |].
  unfold blocks_require, bound_layer. rewrite Hdef, IH. reflexivity.
Qed.

Lemma prepare_layers_unresolved content pre layer post :
  Forall (resolved content) pre ->
  blocks content !! block layer = None ->
  prepare_layers content (pre ++ layer :: post) =
  (Throw (missing_block layer),
   map (bound_layer content) pre ++ layer :: post).
Proof.
  intros Hpre Hlayer.
  induction Hpre as [|first pre [def Hdef] _ IH]; simpl.
  - unfold blocks_require. now rewrite Hlayer.
  - unfold blocks_require, bound_layer. rewrite Hdef, IH. reflexivity.
Qed.

Lemma prepare_layers_app content l1 l2 :
  prepare_layers content (l1 ++ l2) =
  match prepare_layers content l1 with
  | (Ok _, l1') =>
      let '(r, l2') := prepare_layers content l2 in (r, l1' ++ l2')
  | (Throw what, l1') => (Throw what, l1' ++ l2)
  end.
Proof.
  induction l1 as [|layer l1 IH]; simpl.
  - now destruct (prepare_layers content l2).
  - destruct (blocks_require (blocks content) (block layer)); [|reflexivity].
    rewrite IH.
    destruct (prepare_layers content l1) as [[[]|what] l1']; [|reflexivity].
    now destruct (prepare_layers content l2).
Qed.

(** [prepare] is the loop over the layers of the generator in visiting
    order. *)
Lemma prepare_biome_layers content biome :
  (fst (prepare_biome content biome),
   biome_layers (snd (prepare_biome content biome))) =
  prepare_layers content (biome_layers biome).
Proof.
  unfold biome_layers, prepare_biome. rewrite prepare_layers_app.
  destruct (prepare_layers content (layers (groundLayers biome)))
    as [[[]|what] ground]; [|reflexivity].
  now destruct (prepare_layers content (layers (seaLayers biome))).
Qed.

Lemma prepare_biomes_layers content bs :
  (fst (prepare_biomes content bs),
   flat_map biome_layers (snd (prepare_biomes content bs))) =
  prepare_layers content (flat_map biome_layers bs).
Proof.
  induction bs as [|biome rest IH]; simpl; [reflexivity |].
  rewrite prepare_layers_app, <- prepare_biome_layers, <- IH.
  destruct (prepare_biome content biome) as [[[]|what] biome']; simpl;
    [|reflexivity].
  now destruct (prepare_biomes content rest).
Qed.

Lemma prepare_generator_layers self content :
  (fst (prepare self content),
   generator_layers (snd (prepare self content))) =
  prepare_layers content (generator_layers self).
Proof.
  unfold prepare, generator_layers.
  rewrite <- prepare_biomes_layers.
  now destruct (prepare_biomes content (biomes self)).
Qed.

Lemma prepare_biome_resolved content biome :
  Forall (resolved content) (biome_layers biome) ->
  prepare_biome content biome = (Ok tt, bound_biome content biome).
Proof.
  unfold biome_layers. intros H. apply Forall_app in H as [Hg Hs].
  unfold prepare_biome.
  rewrite (prepare_layers_resolved _ _ Hg), (prepare_layers_resolved _ _ Hs).
  reflexivity.
Qed.

Lemma prepare_biomes_resolved content bs :
  Forall (resolved content) (flat_map biome_layers bs) ->
  prepare_biomes content bs = (Ok tt, map (bound_biome content) bs).
Proof.
  induction bs as [|biome rest IH]; simpl; [reflexivity |].
  intros H. apply Forall_app in H as [Hb Hrest].
  now rewrite (prepare_biome_resolved _ _ Hb), (IH Hrest).
Qed.

Lemma prepare_resolved self content :
  Forall (resolved content) (generator_layers self) ->
  prepare self content = (Ok tt, bound_generator content self).
Proof.
  intros H. unfold prepare.
  now rewrite (prepare_biomes_resolved _ _ H).
Qed.

Lemma bound_generator_layers content self :
  generator_layers (bound_generator content self) =
  map (bound_layer content) (generator_layers self).
Proof.
  unfold generator_layers. simpl.
  induction (biomes self) as [|biome rest IH]; simpl; [reflexivity |].
  rewrite map_app, <- IH. f_equal.
  unfold biome_layers. simpl. now rewrite map_app.
Qed.

Lemma bound_generator_idem content self :
  bound_generator content (bound_generator content self) =
  bound_generator content self.
Proof.
  unfold bound_generator. simpl. f_equal.
  rewrite map_map. apply map_ext. intros biome.
  unfold bound_biome, bound_stack, set_layers. simpl. f_equal.
  - f_equal. rewrite map_map. apply map_ext. intros layer.
    apply bound_layer_idem.
  - f_equal. rewrite map_map. apply map_ext. intros layer.
    apply bound_layer_idem.
Qed.

Lemma first_unresolved content ls missing :
  In missing ls ->
  blocks content !! block missing = None ->
  exists pre layer post,
    ls = pre ++ layer :: post /\
    Forall (resolved content) pre /\
    blocks content !! block layer = None.
Proof.
  intros Hin Hmissing.
  induction ls as [|first rest IH]; [destruct Hin |].
  destruct (blocks content !! block first) as [def|] eqn:Hfirst.
  - destruct Hin as [-> | Hin]; [congruence |].
    destruct (IH Hin) as (pre & layer & post & -> & Hpre & Hlayer).
    exists (first :: pre), layer, post. repeat split; try assumption.
    constructor; [|assumption]. exists def. assumption.
  - exists [], first, rest. repeat split; [constructor | assumption].
Qed.

Example scenario_loaded :
  load_generator 256 1 (Scenario.definition Scenario.plains) =
  Ok Scenario.loaded.
Proof. reflexivity. Qed.

(** C7: when the registry knows every block name the generator refers to,
    [prepare] returns, every ground and sea layer then carries the
    registry's id for its block name (the layers are otherwise the same),
    and a second [prepare] with the same registry returns and changes
    nothing. *)
Theorem prepare_binds_ids self content :
  Forall (resolved content) (generator_layers self) ->
  exists self',
    prepare self content = (Ok tt, self') /\
    Forall (fun layer =>
              Block_rt_id <$> blocks content !! block layer =
                Some (rt_id layer))
           (generator_layers self') /\
    map (fun layer => (block layer, height layer, belowSeaLevel layer))
        (generator_layers self') =
    map (fun layer => (block layer, height layer, belowSeaLevel layer))
        (generator_layers self) /\
    prepare self' content = (Ok tt, self').
Proof.
  intros Hresolved. exists (bound_generator content self).
  assert (Hagain : Forall (resolved content)
                     (generator_layers (bound_generator content self))).
  { rewrite bound_generator_layers. apply Forall_map.
    eapply Forall_impl; [exact Hresolved |].
    intros layer H. unfold resolved. simpl. now rewrite bound_layer_block. }
  repeat split.
  - now apply prepare_resolved.
  - rewrite bound_generator_layers. apply Forall_map.
    eapply Forall_impl; [exact Hresolved |].
    intros layer H. simpl. rewrite bound_layer_block.
    now apply bound_layer_rt_id.
  - rewrite bound_generator_layers, map_map. apply map_ext.
    intros layer. unfold bound_layer.
    now destruct (blocks content !! block layer).
  - rewrite prepare_resolved by assumption.
    now rewrite bound_generator_idem.
Qed.

Lemma prepare_binds_ids_witness :
  exists self',
    prepare Scenario.loaded Scenario.content_with_stone = (Ok tt, self') /\
    Forall (fun layer =>
              Block_rt_id <$>
                blocks Scenario.content_with_stone !! block layer =
                Some (rt_id layer))
           (generator_layers self') /\
    map (fun layer => (block layer, height layer, belowSeaLevel layer))
        (generator_layers self') =
    map (fun layer => (block layer, height layer, belowSeaLevel layer))
        (generator_layers Scenario.loaded) /\
    prepare self' Scenario.content_with_stone = (Ok tt, self').
Proof.
  apply (prepare_binds_ids Scenario.loaded Scenario.content_with_stone).
  repeat constructor; vm_compute; eauto.
Defined.

(** C8, as stated, at the scenario's generator and a registry without
    ["stone"]: [prepare] throws, and the ids of the grass and dirt layers,
    visited before the stone layer, have been changed. *)
Lemma prepare_leaves_partial_binding :
  exists self',
    prepare Scenario.loaded Scenario.content_without_stone =
      (Throw "missing content unit stone", self') /\
    map rt_id (generator_layers Scenario.loaded) = [0; 0; 0] /\
    map rt_id (generator_layers self') = [2; 1; 0] /\
    generator_layers self' <> generator_layers Scenario.loaded.
Proof.
  eexists. split; [vm_compute; reflexivity |].
  repeat split. vm_compute. congruence.
Qed.

(** C8 (amended): when the registry lacks a block name that some layer
    refers to, [prepare] throws at the first such layer in visiting order
    (biome by biome, ground layers before sea layers).  It is not
    all-or-nothing: the layers visited before that one are left bound to
    their registry ids; that layer and the layers after it are unchanged. *)
Theorem prepare_missing_block self content missing :
  In missing (generator_layers self) ->
  blocks content !! block missing = None ->
  exists pre layer post,
    generator_layers self = pre ++ layer :: post /\
    Forall (resolved content) pre /\
    blocks content !! block layer = None /\
    fst (prepare self content) = Throw (missing_block layer) /\
    generator_layers (snd (prepare self content)) =
      map (bound_layer content) pre ++ layer :: post.
Proof.
  intros Hin Hmissing.
  destruct (first_unresolved content _ _ Hin Hmissing)
    as (pre & layer & post & Hsplit & Hpre & Hlayer).
  exists pre, layer, post.
  pose proof (prepare_generator_layers self content) as H.
  rewrite Hsplit, (prepare_layers_unresolved _ _ _ _ Hpre Hlayer) in H.
  injection H as Hfst Hsnd.
  repeat split; assumption.
Qed.

Lemma prepare_missing_block_witness :
  exists pre layer post,
    generator_layers Scenario.loaded = pre ++ layer :: post /\
    Forall (resolved Scenario.content_without_stone) pre /\
    blocks Scenario.content_without_stone !! block layer = None /\
    fst (prepare Scenario.loaded Scenario.content_without_stone) =
      Throw (missing_block layer) /\
    generator_layers
      (snd (prepare Scenario.loaded Scenario.content_without_stone)) =
      map (bound_layer Scenario.content_without_stone) pre ++ layer :: post.
Proof.
  apply (prepare_missing_block Scenario.loaded Scenario.content_without_stone
           {| block := "stone"; height := 20; belowSeaLevel := true;
              rt_id := 0 |}).
  - simpl. right. right. left. reflexivity.
  - vm_compute. reflexivity.
Defined.

(** ** Heightmaps *)

Lemma Heightmap_new_samples width height :
  length (hm_buffer (Heightmap_new width height)) = Z.to_nat (width * height) /\
  Forall (eq baseline) (hm_buffer (Heightmap_new width height)).
Proof.
  unfold Heightmap_new. simpl. split.
  - apply length_replicate.
  - generalize (Z.to_nat (width * height)). intros n.
    induction n as [|n IH]; simpl; constructor; [reflexivity | assumption].
Qed.

(** C6: when the environment binds no [generate_heightmap], or the call of
    it fails, [generateHeightmap] returns (it neither throws nor takes the
    null-pointer path) the default heightmap of the requested size:
    [size.x] by [size.y], with [size.x * size.y] samples, all at the
    baseline. *)
Theorem generateHeightmap_default {lua_State : Type}
    (getfield : lua_State -> scriptenv -> string -> option (lua_function lua_State))
    self offset size seed L :
  getfield L (env self) "generate_heightmap" = None \/
  (exists f,
     getfield L (env self) "generate_heightmap" = Some f /\
     fst (f (heightmap_arguments offset size seed) L) = CallFailed) ->
  exists map,
    fst (generateHeightmap getfield self offset size seed L) = Returned map /\
    map = Heightmap_new (glm.x size) (glm.y size) /\
    hm_width map = glm.x size /\
    hm_height map = glm.y size /\
    length (hm_buffer map) = Z.to_nat (glm.x size * glm.y size) /\
    Forall (eq baseline) (hm_buffer map).
Proof.
  intros H. exists (Heightmap_new (glm.x size) (glm.y size)).
  destruct (Heightmap_new_samples (glm.x size) (glm.y size)) as [Hlen Hall].
  repeat split; try assumption.
  unfold generateHeightmap.
  destruct H as [-> | (f & -> & Hfail)]; [reflexivity |].
  destruct (f (heightmap_arguments offset size seed) L) as [outcome L'].
  simpl in Hfail. now subst outcome.
Qed.

Lemma generateHeightmap_default_witness :
  (exists map,
     fst (generateHeightmap Scripts.no_entry Scenario.loaded
            Scripts.origin Scripts.chunk 42 tt) = Returned map /\
     map = Heightmap_new 16 16 /\
     hm_width map = 16 /\ hm_height map = 16 /\
     length (hm_buffer map) = 256%nat /\
     Forall (eq baseline) (hm_buffer map)) /\
  (exists map,
     fst (generateHeightmap Scripts.faulty Scenario.loaded
            Scripts.origin Scripts.chunk 42 tt) = Returned map /\
     map = Heightmap_new 16 16 /\
     hm_width map = 16 /\ hm_height map = 16 /\
     length (hm_buffer map) = 256%nat /\
     Forall (eq baseline) (hm_buffer map)).
Proof.
  split.
  - apply (generateHeightmap_default Scripts.no_entry Scenario.loaded
             Scripts.origin Scripts.chunk 42 tt).
    left. reflexivity.
  - apply (generateHeightmap_default Scripts.faulty Scenario.loaded
             Scripts.origin Scripts.chunk 42 tt).
    right. eexists. split; reflexivity.
Defined.

(** C1, as stated, at a script that counts its calls: two calls with the
    same arguments both return, without fault, and the heightmaps differ. *)
Lemma generateHeightmap_counting_script_differs :
  exists first second,
    generateHeightmap_twice Scripts.counting Scenario.loaded
      Scripts.origin Scripts.chunk 42 0 =
      (Returned first, Returned second) /\
    hm_height first = 1 /\ hm_height second = 2 /\
    first <> second.
Proof.
  do 2 eexists. split; [reflexivity |].
  repeat split. intros H.
  apply (f_equal hm_height) in H. discriminate H.
Qed.

(** C1 (amended): [generateHeightmap] keeps no state of its own; what it
    returns is decided by offset, size, seed and the interpreter state at
    the call.  Two calls in a row with the same arguments have the same
    outcome whenever the script is stateless in this sense: a call of the
    entry point leaves it bound, and what the entry point returns does not
    depend on the interpreter state. *)
Theorem generateHeightmap_repeatable {lua_State : Type}
    (getfield : lua_State -> scriptenv -> string -> option (lua_function lua_State))
    self :
  (forall L f args,
     getfield L (env self) "generate_heightmap" = Some f ->
     getfield (snd (f args L)) (env self) "generate_heightmap" = Some f) ->
  (forall L L' f args,
     getfield L (env self) "generate_heightmap" = Some f ->
     fst (f args L) = fst (f args L')) ->
  forall offset size seed L,
    fst (generateHeightmap_twice getfield self offset size seed L) =
    snd (generateHeightmap_twice getfield self offset size seed L).
Proof.
  intros Hbound Hpure offset size seed L.
  unfold generateHeightmap_twice, generateHeightmap.
  destruct (getfield L (env self) "generate_heightmap") as [f|] eqn:Hf.
  - pose proof (Hbound L f (heightmap_arguments offset size seed) Hf) as Hf'.
    pose proof (Hpure L (snd (f (heightmap_arguments offset size seed) L)) f
                  (heightmap_arguments offset size seed) Hf) as Hsame.
    destruct (f (heightmap_arguments offset size seed) L)
      as [outcome L1] eqn:Hcall.
    simpl in Hf', Hsame.
    destruct outcome as [|[map|]]; rewrite Hf';
      destruct (f (heightmap_arguments offset size seed) L1)
        as [outcome' L2]; simpl in Hsame; subst outcome'; reflexivity.
  - rewrite Hf. reflexivity.
Qed.

Lemma generateHeightmap_repeatable_witness :
  fst (generateHeightmap_twice Scripts.flat Scenario.loaded
         Scripts.origin Scripts.chunk 42 tt) =
  snd (generateHeightmap_twice Scripts.flat Scenario.loaded
         Scripts.origin Scripts.chunk 42 tt).
Proof.
  apply (generateHeightmap_repeatable Scripts.flat Scenario.loaded).
  - intros [] f args H. destruct (snd (f args tt)). exact H.
  - intros [] [] f args H. reflexivity.
Defined.

(** ** More on the loader: stacks *)

Lemma load_layers_loop_throw_inv fieldname entries :
  forall i last has acc what,
  load_layers_loop fieldname i entries last has acc = Throw what ->
  exists k entry cause,
    what = layers_error fieldname (i + Z.of_nat k) cause /\
    entries !! k = Some entry /\
    Forall well_formed (take k entries) /\
    (count_elastic (take k entries) + seen has <= 1)%nat /\
    entry_failure entry (count_elastic (take k entries) + seen has) cause.
Proof.
  induction entries as [|first rest IH]; intros i last has acc what;
    [discriminate |].
  assert (Hzero : forall cause,
            entry_failure first (seen has) cause ->
            exists k entry cause',
              layers_error fieldname i cause =
                layers_error fieldname (i + Z.of_nat k) cause' /\
              (first :: rest) !! k = Some entry /\
              Forall well_formed (take k (first :: rest)) /\
              (count_elastic (take k (first :: rest)) + seen has <= 1)%nat /\
              entry_failure entry
                (count_elastic (take k (first :: rest)) + seen has) cause').
  { intros cause Hcause. exists 0%nat, first, cause. simpl.
    rewrite Z.add_0_r. repeat split; try assumption.
    - constructor.
    - unfold count_elastic. simpl. destruct has; simpl; lia. }
  step_layer first last has.
  - intros [= <-]. apply Hzero. left. auto.
  - intros [= <-]. apply Hzero. right. left. auto.
  - intros [= <-]. apply Hzero. right. right. subst has. auto.
  - intros Hloop.
    apply IH in Hloop as (k & entry & cause & -> & Hk & Hwfk & Hcount & Hfail).
    assert (Hseen : (count_elastic (take (S k) (first :: rest)) + seen has =
                     count_elastic (take k rest) +
                     seen (next_has first has))%nat).
    { simpl take. rewrite count_elastic_cons, seen_next_has, Hfirst.
      destruct (is_elastic first), has; simpl in *; try discriminate; lia. }
    exists (S k), entry, cause. rewrite Hseen.
    repeat split; try assumption.
    + f_equal. lia.
    + simpl. now constructor.
Qed.

Lemma load_layers_returns entries fieldname :
  Forall well_formed entries ->
  (count_elastic entries <= 1)%nat ->
  exists stack, load_layers (Some entries) fieldname = Ok stack.
Proof.
  intros Hwf Hcount. eexists. unfold load_layers.
  apply load_layers_loop_returns; [assumption | simpl; lia].
Qed.


(** X1: a layer list loads exactly when every entry has its [block] and
    [height] fields and at most one entry is elastic. *)
Theorem load_layers_returns_iff entries fieldname :
  (exists stack, load_layers (Some entries) fieldname = Ok stack) <->
  Forall well_formed entries /\ (count_elastic entries <= 1)%nat.
Proof.
  split.
  - intros [stack H]. apply load_layers_inv in H as (Hwf & Hcount & _).
    now split.
  - intros [Hwf Hcount]. now apply load_layers_returns.
Qed.

Lemma load_layers_returns_iff_witness :
  exists stack, load_layers (Some Scenario.ground) "layers" = Ok stack.
Proof.
  apply (proj2 (load_layers_returns_iff Scenario.ground "layers")).
  split.
  - repeat constructor; simpl; eauto.
  - vm_compute. lia.
Defined.

(** X2: a loaded stack has one layer per entry, in the order of the list;
    each layer carries the block name of its entry, the entry's height
    converted to [int], the entry's [below_sea_level] flag or [true] when
    the entry has none, and the runtime id 0. *)
Theorem load_layers_in_order entries fieldname stack :
  load_layers (Some entries) fieldname = Ok stack ->
  length (layers stack) = length entries /\
  forall i entry,
    entries !! i = Some entry ->
    exists layer,
      layers stack !! i = Some layer /\
      rl_block entry = Some (block layer) /\
      Int.wrap_int <$> rl_height entry = Some (height layer) /\
      belowSeaLevel layer = default true (rl_below_sea_level entry) /\
      rt_id layer = 0.
Proof.
  intros H. apply load_layers_inv in H as (Hwf & _ & Hlayers & _).
  simpl in Hwf, Hlayers. rewrite Hlayers. split.
  - apply length_map.
  - intros i entry Hi. exists (to_layer entry). split.
    + change (map to_layer entries) with (to_layer <$> entries).
      now rewrite list_lookup_fmap, Hi.
    + assert (Hentry : well_formed entry).
      { eapply Forall_lookup_1; eassumption. }
      destruct Hentry as [[b Hb] [h Hh]].
      unfold to_layer. simpl. rewrite Hb, Hh. simpl.
      repeat split.
Qed.

Lemma load_layers_in_order_witness :
  length (layers {| layers := map to_layer Scenario.ground;
                    lastLayersHeight := 20 |}) = 3%nat.
Proof.
  apply (load_layers_in_order Scenario.ground "layers").
  reflexivity.
Defined.

(** X3: when a layer list fails to load, the error names the field and the
    1-based index of the first entry that cannot be accepted: the entries
    before it load on their own, and the cause is that entry's missing
    [block], its missing [height], or its being a second elastic entry. *)
Theorem load_layers_first_error entries fieldname what :
  load_layers (Some entries) fieldname = Throw what ->
  exists k entry cause,
    what = layers_error fieldname (Z.of_nat (S k)) cause /\
    entries !! k = Some entry /\
    (exists stack, load_layers (Some (take k entries)) fieldname = Ok stack) /\
    entry_failure entry (count_elastic (take k entries)) cause.
Proof.
  intros H. unfold load_layers in H.
  apply load_layers_loop_throw_inv in H
    as (k & entry & cause & -> & Hk & Hwf & Hcount & Hfail).
  simpl in Hcount, Hfail. rewrite Nat.add_0_r in Hcount, Hfail.
  exists k, entry, cause. repeat split; try assumption.
  - f_equal. lia.
  - now apply load_layers_returns.
Qed.

Lemma load_layers_first_error_witness :
  exists k entry cause,
    "sea_layers #2: only one resizeable layer allowed" =
      layers_error "sea_layers" (Z.of_nat (S k)) cause /\
    [Scenario.layer "water" (-1); Scenario.layer "ice" (-1)] !! k =
      Some entry /\
    (exists stack,
       load_layers
         (Some (take k [Scenario.layer "water" (-1);
                        Scenario.layer "ice" (-1)]))
         "sea_layers" = Ok stack) /\
    entry_failure entry
      (count_elastic
         (take k [Scenario.layer "water" (-1); Scenario.layer "ice" (-1)]))
      cause.
Proof.
  apply (load_layers_first_error
           [Scenario.layer "water" (-1); Scenario.layer "ice" (-1)]
           "sea_layers").
  reflexivity.
Defined.

(** ** More on the loader: biomes *)


(** X4: entries of the [parameters] table beyond the first
    [parametersCount] are ignored: the biome loads, or fails, exactly as
    with the table cut down to them. *)
Theorem load_biome_ignores_extra_parameters table ground sea name count :
  load_biome {| rb_parameters := Some table; rb_layers := ground;
                rb_sea_layers := sea |} name count =
  load_biome {| rb_parameters := Some (take (Z.to_nat count) table);
                rb_layers := ground; rb_sea_layers := sea |} name count.
Proof.
  unfold load_biome. simpl.
  destruct (Z.of_nat (length table) <? count) eqn:Hlen.
  - apply Z.ltb_lt in Hlen. rewrite take_ge by lia.
    apply Z.ltb_lt in Hlen. now rewrite Hlen.
  - apply Z.ltb_ge in Hlen.
    assert (Hcut : (Z.of_nat (length (take (Z.to_nat count) table)) <? count)
                   = false).
    { apply Z.ltb_ge. rewrite length_take. lia. }
    rewrite Hcut, take_take, Nat.min_id. reflexivity.
Qed.



(** ** More on the loader: the definition as a whole *)

Lemma load_biomes_loop_returns count entries : forall acc bs,
  Forall2 (fun keyed biome => load_biome keyed.2 keyed.1 count = Ok biome)
          entries bs ->
  load_biomes_loop entries count acc = Ok (acc ++ bs).
Proof.
  induction entries as [|[key entry] rest IH]; intros acc bs H.
  - apply Forall2_nil_inv_l in H as ->. simpl. now rewrite app_nil_r.
  - apply Forall2_cons_inv_l in H as (biome & bs' & Hbiome & Hrest & ->).
    simpl in *. rewrite Hbiome. simpl.
    rewrite (IH _ _ Hrest). now rewrite <- app_assoc.
Qed.

Lemma load_biomes_loop_inv count entries : forall acc bs,
  load_biomes_loop entries count acc = Ok bs ->
  exists bs',
    bs = acc ++ bs' /\
    Forall2 (fun keyed biome => load_biome keyed.2 keyed.1 count = Ok biome)
            entries bs'.
Proof.
  induction entries as [|[key entry] rest IH]; intros acc bs; simpl.
  - intros [= <-]. exists []. split; [now rewrite app_nil_r | constructor].
  - destruct (load_biome entry key count) as [biome|what] eqn:Hbiome; simpl;
      [|discriminate].
    intros H. apply IH in H as (bs' & -> & Hrest).
    exists (biome :: bs'). split; [now rewrite <- app_assoc |].
    now constructor.
Qed.

Lemma load_biomes_loop_throw_inv count entries : forall acc what,
  load_biomes_loop entries count acc = Throw what ->
  exists pre key entry post cause,
    entries = pre ++ (key, entry) :: post /\
    Forall (loads count) pre /\
    load_biome entry key count = Throw cause /\
    what = biome_error key cause.
Proof.
  induction entries as [|[key entry] rest IH]; intros acc what; simpl;
    [discriminate |].
  destruct (load_biome entry key count) as [biome|cause] eqn:Hbiome; simpl.
  - intros H.
    apply IH in H as (pre & key' & entry' & post & cause & -> & Hpre & H & ->).
    exists ((key, entry) :: pre), key', entry', post, cause.
    repeat split; try assumption.
    constructor; [|assumption]. exists biome. exact Hbiome.
  - intros [= <-]. exists [], key, entry, rest, cause.
    split; [reflexivity |]. split; [apply List.Forall_nil |].
    split; [assumption | reflexivity].
Qed.

Lemma load_biomes_loop_throws count pre key entry post cause : forall acc,
  Forall (loads count) pre ->
  load_biome entry key count = Throw cause ->
  load_biomes_loop (pre ++ (key, entry) :: post) count acc =
  Throw (biome_error key cause).
Proof.
  induction pre as [|[key' entry'] pre IH]; intros acc Hpre Hthrow; simpl.
  - now rewrite Hthrow.
  - apply Forall_cons in Hpre as [[biome Hbiome] Hpre]. simpl in Hbiome.
    rewrite Hbiome. simpl. now apply IH.
Qed.

Lemma load_generator_inv CHUNK_H new_env script self :
  load_generator CHUNK_H new_env script = Ok self ->
  exists entries,
    rg_biomes script = BiomesTable entries /\
    Forall2 (fun keyed biome =>
               load_biome keyed.2 keyed.1 (parameters_count script) = Ok biome)
            entries (biomes self) /\
    env self = new_env /\
    biomeParameters self = parameters_count script.
Proof.
  unfold load_generator, parameters_count.
  destruct (rg_biomes script) as [| |entries]; simpl; try discriminate.
  destruct (load_biomes_loop entries _ []) as [bs|what] eqn:Hloop; simpl;
    [|discriminate].
  intros [= <-]. simpl.
  apply load_biomes_loop_inv in Hloop as (bs' & -> & Hall).
  exists entries. repeat split. exact Hall.
Qed.

(** X6: [load_generator] returns a generator exactly when the global
    [biomes] is a table and [load_biome] accepts every entry of it with the
    global parameter count; no generator is returned otherwise. *)
Theorem load_generator_returns_iff CHUNK_H new_env script :
  (exists self, load_generator CHUNK_H new_env script = Ok self) <->
  (exists entries,
     rg_biomes script = BiomesTable entries /\
     Forall (loads (parameters_count script)) entries).
Proof.
  split.
  - intros [self H].
    apply load_generator_inv in H as (entries & Htable & Hall & _).
    exists entries. split; [assumption |].
    clear Htable. induction Hall as [|keyed biome rest bs Hb _ IH];
      constructor; [exists biome; exact Hb | exact IH].
  - intros (entries & Htable & Hall).
    assert (Hbs : exists bs,
              Forall2 (fun keyed biome =>
                         load_biome keyed.2 keyed.1 (parameters_count script)
                           = Ok biome) entries bs).
    { clear Htable. induction Hall as [|keyed rest [biome Hb] _ [bs IH]].
      - exists []. constructor.
      - exists (biome :: bs). now constructor. }
    destruct Hbs as [bs Hbs].
    unfold load_generator. rewrite Htable. simpl.
    fold (parameters_count script).
    rewrite (load_biomes_loop_returns _ _ [] bs Hbs). simpl. eauto.
Qed.

Lemma load_generator_returns_iff_witness :
  exists self,
    load_generator 256 1 (Scenario.definition Scenario.plains) = Ok self.
Proof.
  apply (proj2 (load_generator_returns_iff 256 1
                  (Scenario.definition Scenario.plains))).
  exists [("plains", Scenario.plains)]. split; [reflexivity |].
  constructor; [|constructor]. eexists. reflexivity.
Defined.

(** X7: the catalog of a loaded generator has one biome per entry of the
    [biomes] table, in the order of the traversal, each named by the key of
    its entry. *)
Theorem load_generator_catalog CHUNK_H new_env script self entries :
  load_generator CHUNK_H new_env script = Ok self ->
  rg_biomes script = BiomesTable entries ->
  length (getBiomes self) = length entries /\
  map name (getBiomes self) = map fst entries.
Proof.
  intros H Htable.
  apply load_generator_inv in H as (entries' & Htable' & Hall & _).
  rewrite Htable in Htable'. injection Htable' as <-.
  unfold getBiomes. split.
  - symmetry. eapply Forall2_length. exact Hall.
  - clear Htable.
    induction Hall as [|[key entry] biome rest bs Hb _ IH]; simpl;
      [reflexivity |].
    apply load_biome_inv in Hb as (? & ? & ? & ? & _ & _ & _ & _ & _ & ->).
    simpl. now rewrite IH.
Qed.

Lemma load_generator_catalog_witness :
  length (getBiomes Scenario.loaded) = 1%nat /\
  map name (getBiomes Scenario.loaded) = ["plains"].
Proof.
  apply (load_generator_catalog 256 1 (Scenario.definition Scenario.plains)
           Scenario.loaded [("plains", Scenario.plains)]).
  - reflexivity.
  - reflexivity.
Defined.

(** X8: when the [biomes] table is there and [load_generator] throws, the
    error is that of the first entry, in traversal order, that [load_biome]
    rejects, prefixed with the key of that entry; the entries before it
    load. *)
Theorem load_generator_first_failure CHUNK_H new_env script entries what :
  rg_biomes script = BiomesTable entries ->
  load_generator CHUNK_H new_env script = Throw what ->
  exists pre key entry post cause,
    entries = pre ++ (key, entry) :: post /\
    Forall (loads (parameters_count script)) pre /\
    load_biome entry key (parameters_count script) = Throw cause /\
    what = biome_error key cause.
Proof.
  intros Htable. unfold load_generator. rewrite Htable. simpl.
  fold (parameters_count script).
  destruct (load_biomes_loop entries _ []) as [bs|what'] eqn:Hloop; simpl;
    [discriminate |].
  intros [= <-]. now apply load_biomes_loop_throw_inv in Hloop.
Qed.

Lemma load_generator_first_failure_witness :
  exists pre key entry post cause,
    [("plains", Scenario.plains_two_elastic_sea)] =
      pre ++ (key, entry) :: post /\
    Forall (loads
              (parameters_count
                 (Scenario.definition Scenario.plains_two_elastic_sea))) pre /\
    load_biome entry key
      (parameters_count
         (Scenario.definition Scenario.plains_two_elastic_sea)) =
      Throw cause /\
    "biome plains: biome plains: sea_layers #2: only one resizeable layer allowed"
      = biome_error key cause.
Proof.
  apply (load_generator_first_failure 256 1
           (Scenario.definition Scenario.plains_two_elastic_sea)).
  - reflexivity.
  - reflexivity.
Defined.

(** X9: a biome whose [parameters] table is shorter than the global
    parameter count, after biomes that load, makes [load_generator] throw
    "biome <key>: <count> parameters expected", whatever its layers are. *)
Theorem load_generator_short_parameters CHUNK_H new_env script
    pre key entry post table :
  rg_biomes script = BiomesTable (pre ++ (key, entry) :: post) ->
  Forall (loads (parameters_count script)) pre ->
  rb_parameters entry = Some table ->
  Z.of_nat (length table) < parameters_count script ->
  load_generator CHUNK_H new_env script =
  Throw (biome_error key
           (to_string (parameters_count script) +:+ " parameters expected")).
Proof.
  intros Htable Hpre Hparams Hshort.
  unfold load_generator. rewrite Htable. simpl.
  fold (parameters_count script).
  rewrite (load_biomes_loop_throws _ _ _ _ _
             (to_string (parameters_count script) +:+ " parameters expected"));
    [reflexivity | assumption |].
  unfold load_biome. rewrite Hparams. simpl.
  apply Z.ltb_lt in Hshort. now rewrite Hshort.
Qed.

Lemma load_generator_short_parameters_witness :
  load_generator 256 1
    (Scenario.definition
       {| rb_parameters := Some [Scenario.parameter 0.5 1];
          rb_layers := Some Scenario.ground; rb_sea_layers := None |}) =
  Throw (biome_error "plains" (to_string 2 +:+ " parameters expected")).
Proof.
  apply (load_generator_short_parameters 256 1
           (Scenario.definition
              {| rb_parameters := Some [Scenario.parameter 0.5 1];
                 rb_layers := Some Scenario.ground; rb_sea_layers := None |})
           [] "plains"
           {| rb_parameters := Some [Scenario.parameter 0.5 1];
              rb_layers := Some Scenario.ground; rb_sea_layers := None |}
           [] [Scenario.parameter 0.5 1]).
  - reflexivity.
  - constructor.
  - reflexivity.
  - vm_compute. reflexivity.
Defined.

Lemma load_layers_stack_invariant field fieldname stack :
  load_layers field fieldname = Ok stack ->
  (length (List.filter elastic_layer (layers stack)) <= 1)%nat /\
  0 <= lastLayersHeight stack < Int.modulus32 /\
  Forall (fun layer => rt_id layer = 0) (layers stack).
Proof.
  intros H. apply load_layers_inv in H as (_ & Hcount & Hlayers & Hlast).
  rewrite Hlayers, Hlast. repeat split.
  - now rewrite count_elastic_to_layer.
  - rewrite final_height_sum by (vm_compute; split; congruence).
    apply IntFacts.wrap_uint_range.
  - rewrite final_height_sum by (vm_compute; split; congruence).
    apply IntFacts.wrap_uint_range.
  - apply Forall_map. apply Forall_forall. intros entry _. reflexivity.
Qed.

(** X10: in every generator that [load_generator] returns, each stack of
    each biome holds at most one elastic layer and an accumulator within
    the range of [uint], and every layer carries the runtime id 0: ids are
    given by [prepare] only. *)
Theorem load_generator_invariant CHUNK_H new_env script self :
  load_generator CHUNK_H new_env script = Ok self ->
  Forall (fun biome =>
            forall stack,
              stack = groundLayers biome \/ stack = seaLayers biome ->
              (length (List.filter elastic_layer (layers stack)) <= 1)%nat /\
              0 <= lastLayersHeight stack < Int.modulus32)
         (getBiomes self) /\
  Forall (fun layer => rt_id layer = 0) (generator_layers self).
Proof.
  intros H. apply load_generator_inv in H as (entries & _ & Hall & _).
  unfold getBiomes, generator_layers.
  induction Hall as [|[key entry] biome rest bs Hb _ [IHs IHl]]; simpl.
  - split; constructor.
  - apply load_biome_inv in Hb
      as (table & ps & ground & sea & _ & _ & _ & Hg & Hs & ->).
    apply load_layers_stack_invariant in Hg as (Hg1 & Hg2 & Hg3).
    apply load_layers_stack_invariant in Hs as (Hs1 & Hs2 & Hs3).
    split.
    + constructor; [|exact IHs].
      simpl. intros stack [-> | ->]; split; assumption.
    + apply Forall_app. split; [|exact IHl].
      unfold biome_layers. simpl. apply Forall_app. now split.
Qed.

Lemma load_generator_invariant_witness :
  Forall (fun layer => rt_id layer = 0) (generator_layers Scenario.loaded).
Proof.
  apply (load_generator_invariant 256 1 (Scenario.definition Scenario.plains)
           Scenario.loaded).
  reflexivity.
Defined.

(** ** More on binding block names *)

Lemma prepare_layers_unbound content ls :
  map unbound_layer (snd (prepare_layers content ls)) = map unbound_layer ls.
Proof.
  induction ls as [|layer rest IH]; simpl; [reflexivity |].
  destruct (blocks_require (blocks content) (block layer)); [|reflexivity].
  destruct (prepare_layers content rest) as [r rest']. simpl in *.
  now rewrite IH.
Qed.

Lemma prepare_biome_unbound content biome :
  unbound_biome (snd (prepare_biome content biome)) = unbound_biome biome.
Proof.
  unfold prepare_biome.
  pose proof (prepare_layers_unbound content (layers (groundLayers biome)))
    as Hg.
  pose proof (prepare_layers_unbound content (layers (seaLayers biome)))
    as Hs.
  destruct (prepare_layers content (layers (groundLayers biome)))
    as [[[]|what] ground]; simpl in *.
  - destruct (prepare_layers content (layers (seaLayers biome)))
      as [r sea]; simpl in *.
    unfold unbound_biome, unbound_stack, set_layers. simpl.
    now rewrite Hg, Hs.
  - unfold unbound_biome, unbound_stack, set_layers. simpl.
    now rewrite Hg.
Qed.

Lemma prepare_biomes_unbound content bs :
  map unbound_biome (snd (prepare_biomes content bs)) = map unbound_biome bs.
Proof.
  induction bs as [|biome rest IH]; simpl; [reflexivity |].
  pose proof (prepare_biome_unbound content biome) as Hb.
  destruct (prepare_biome content biome) as [[[]|what] biome']; simpl in *.
  - destruct (prepare_biomes content rest) as [r rest']; simpl in *.
    now rewrite Hb, IH.
  - now rewrite Hb.
Qed.

Lemma prepare_unbound self content :
  unbound_generator (snd (prepare self content)) = unbound_generator self.
Proof.
  unfold prepare.
  pose proof (prepare_biomes_unbound content (biomes self)) as H.
  destruct (prepare_biomes content (biomes self)) as [r bs]; simpl in *.
  unfold unbound_generator. simpl. now rewrite H.
Qed.

(** X11: whether it returns or throws, [prepare] changes nothing but the
    runtime ids of layers: the environment, the two settings, the biomes
    with their names and parameters, and in every stack the layers' block
    names, heights and sea flags and the accumulator stay as they were. *)
Theorem prepare_changes_ids_only self content :
  let self' := snd (prepare self content) in
  unbound_generator self' = unbound_generator self /\
  env self' = env self /\
  getBiomeParameters self' = getBiomeParameters self /\
  getSeaLevel self' = getSeaLevel self /\
  map name (getBiomes self') = map name (getBiomes self) /\
  map parameters (getBiomes self') = map parameters (getBiomes self) /\
  map (fun layer => (block layer, height layer, belowSeaLevel layer))
      (generator_layers self') =
  map (fun layer => (block layer, height layer, belowSeaLevel layer))
      (generator_layers self).
Proof.
  intros self'. pose proof (prepare_unbound self content) as H.
  fold self' in H.
  assert (Hbiomes : map unbound_biome (biomes self') =
                    map unbound_biome (biomes self))
    by (injection H; auto).
  split; [exact H |].
  split; [injection H; auto |].
  split; [unfold getBiomeParameters; injection H; auto |].
  split; [unfold getSeaLevel; injection H; auto |].
  unfold getBiomes.
  split; [|split].
  - apply (f_equal (map name)) in Hbiomes.
    now rewrite !map_map in Hbiomes.
  - apply (f_equal (map parameters)) in Hbiomes.
    now rewrite !map_map in Hbiomes.
  - apply (f_equal (flat_map (fun biome =>
             map (fun layer => (block layer, height layer, belowSeaLevel layer))
                 (biome_layers biome)))) in Hbiomes.
    assert (Hflat : forall bs,
              flat_map (fun biome =>
                map (fun layer => (block layer, height layer, belowSeaLevel layer))
                    (biome_layers biome)) (map unbound_biome bs) =
              map (fun layer => (block layer, height layer, belowSeaLevel layer))
                  (flat_map biome_layers bs)).
    { induction bs as [|biome rest IH]; simpl; [reflexivity |].
      rewrite IH, map_app. f_equal.
      unfold biome_layers. simpl. rewrite !map_app, !map_map. reflexivity. }
    rewrite !Hflat in Hbiomes. exact Hbiomes.
Qed.

Lemma resolved_unbound content layer :
  resolved content layer ->
  bound_layer content layer = bound_layer content (unbound_layer layer).
Proof.
  intros [def Hdef]. unfold bound_layer. simpl. now rewrite Hdef.
Qed.

Lemma bound_biome_unbound content biome :
  Forall (resolved content) (biome_layers biome) ->
  bound_biome content biome = bound_biome content (unbound_biome biome).
Proof.
  unfold biome_layers. intros H. apply Forall_app in H as [Hg Hs].
  unfold bound_biome, bound_stack, set_layers. simpl.
  rewrite !map_map. f_equal; f_equal.
  - apply map_ext_Forall. eapply Forall_impl; [exact Hg |].
    intros layer. apply resolved_unbound.
  - apply map_ext_Forall. eapply Forall_impl; [exact Hs |].
    intros layer. apply resolved_unbound.
Qed.

Lemma bound_generator_unbound content self :
  Forall (resolved content) (generator_layers self) ->
  bound_generator content self =
  bound_generator content (unbound_generator self).
Proof.
  unfold generator_layers, bound_generator. simpl. intros H. f_equal.
  rewrite map_map.
  induction (biomes self) as [|biome rest IH]; simpl in *; [reflexivity |].
  apply Forall_app in H as [Hb Hrest].
  now rewrite (bound_biome_unbound _ _ Hb), (IH Hrest).
Qed.

Lemma unbound_generator_layers self :
  generator_layers (unbound_generator self) =
  map unbound_layer (generator_layers self).
Proof.
  unfold generator_layers. simpl.
  induction (biomes self) as [|biome rest IH]; simpl; [reflexivity |].
  rewrite map_app, <- IH. f_equal.
  unfold biome_layers. simpl. now rewrite map_app.
Qed.

Lemma resolved_same_names content self self' :
  unbound_generator self' = unbound_generator self ->
  Forall (resolved content) (generator_layers self) ->
  Forall (resolved content) (generator_layers self').
Proof.
  intros Heq H.
  assert (Hu : forall s,
            Forall (resolved content) (generator_layers s) <->
            Forall (resolved content) (generator_layers (unbound_generator s))).
  { intros s. rewrite unbound_generator_layers, Forall_map.
    apply Forall_iff. intros layer. reflexivity. }
  apply (proj2 (Hu self')). rewrite Heq. exact (proj1 (Hu self) H).
Qed.

(** X12: ids of an earlier binding never survive.  After a [prepare] with
    any registry, whether it returned or threw, a [prepare] with a registry
    that knows every block name returns exactly the generator that it
    returns on the generator as loaded. *)
Theorem prepare_rebinds self first second :
  Forall (resolved second) (generator_layers self) ->
  prepare (snd (prepare self first)) second = prepare self second.
Proof.
  intros H.
  pose proof (prepare_unbound self first) as Heq.
  pose proof (resolved_same_names second _ _ Heq H) as H'.
  rewrite (prepare_resolved _ _ H), (prepare_resolved _ _ H').
  f_equal.
  rewrite (bound_generator_unbound _ _ H), (bound_generator_unbound _ _ H').
  now rewrite Heq.
Qed.

Lemma prepare_rebinds_witness :
  prepare (snd (prepare Scenario.loaded Scenario.content_without_stone))
          Scenario.content_with_stone =
  prepare Scenario.loaded Scenario.content_with_stone.
Proof.
  apply (prepare_rebinds Scenario.loaded Scenario.content_without_stone
           Scenario.content_with_stone).
  repeat constructor; vm_compute; eauto.
Defined.

(** ** More on heightmaps *)

(** X13: binding block ids does not touch heightmap generation:
    [generateHeightmap] on a generator that went through [prepare], with
    any registry and whether it returned or threw, does what it does on the
    generator as it was. *)
Theorem generateHeightmap_after_prepare {lua_State : Type}
    (getfield : lua_State -> scriptenv -> string -> option (lua_function lua_State))
    self content offset size seed L :
  generateHeightmap getfield (snd (prepare self content)) offset size seed L =
  generateHeightmap getfield self offset size seed L.
Proof.
  unfold generateHeightmap, prepare.
  destruct (prepare_biomes content (biomes self)) as [r bs]. reflexivity.
Qed.



(** X15: a biome whose parameter table is long enough and well formed and
    whose ground stack loads, but whose [sea_layers] has a second elastic
    entry after well-formed entries, fails to load with an error that names
    the biome, the field [sea_layers] and the 1-based index of that
    entry. *)
Theorem load_biome_second_elastic_sea entry name count table ground
    l1 second l2 :
  rb_parameters entry = Some table ->
  count <= Z.of_nat (length table) ->
  Forall well_formed_parameter (take (Z.to_nat count) table) ->
  load_layers (rb_layers entry) "layers" = Ok ground ->
  rb_sea_layers entry = Some (l1 ++ second :: l2) ->
  Forall well_formed l1 ->
  count_elastic l1 = 1%nat ->
  is_elastic second = true ->
  is_Some (rl_block second) ->
  load_biome entry name count =
  Throw (biome_error name
           (layers_error "sea_layers" (Z.of_nat (length l1) + 1)
              only_one_resizeable)).
Proof.
  intros Htable Hlen Hps Hg Hsea Hwf Hcount He Hb.
  eapply load_biome_layers_throw; try eassumption.
  - now apply load_parameters_loop_returns.
  - rewrite Hg, Hsea. simpl. unfold load_layers.
    rewrite load_layers_loop_second_elastic; try assumption.
    + simpl.
      now replace (1 + Z.of_nat (length l1)) with (Z.of_nat (length l1) + 1)
        by lia.
    + simpl. lia.
Qed.

Lemma load_biome_second_elastic_sea_witness :
  load_biome Scenario.plains_two_elastic_sea "plains" 2 =
  Throw (biome_error "plains"
           (layers_error "sea_layers" (Z.of_nat 1 + 1) only_one_resizeable)).
Proof.
  apply (load_biome_second_elastic_sea Scenario.plains_two_elastic_sea
           "plains" 2
           [Scenario.parameter 0.5 1;
            Scenario.parameter 0x1.3333333333333p-2 1]
           {| layers := map to_layer Scenario.ground; lastLayersHeight := 20 |}
           [Scenario.layer "water" (-1)] (Scenario.layer "ice" (-1)) []).
  - reflexivity.
  - simpl. lia.
  - repeat constructor; simpl; eauto.
  - reflexivity.
  - reflexivity.
  - repeat constructor; simpl; eauto.
  - reflexivity.
  - reflexivity.
  - simpl. eauto.
Defined.
